(** * babyjson: a shallow embedding of [main.cpp]

    The development follows the source top-down:
    - [Text]: what the code needs of [std::string_view] / [std::string];
    - [Model]: the tagged value [JSONObject] with [JSONList] and [JSONDict];
    - [Numeric]: [std::from_chars] as used by [try_parse_num], and the
      regular expression [num_re] with [std::regex_search];
    - [Parser]: [unescaped_char] and [parse];
    - the properties of [parse]. *)

From Stdlib Require Import Bool Arith ZArith Lia List Ascii String.
From Stdlib Require Import Floats.SpecFloat.
Import ListNotations.

Local Open Scope string_scope.
Local Open Scope nat_scope.

(* ===================================================================== *)
(** ** Characters and string views *)
(* ===================================================================== *)

Module Text.

(** Single characters the source names by escape sequences. *)
Definition NUL : ascii := "000"%char.
Definition BEL : ascii := "007"%char.
Definition BS  : ascii := "008"%char.
Definition TAB : ascii := "009"%char.
Definition LF  : ascii := "010"%char.
Definition VT  : ascii := "011"%char.
Definition FF  : ascii := "012"%char.
Definition CR  : ascii := "013"%char.
Definition DQUOTE : ascii := "034"%char.
Definition BACKSLASH : ascii := "\"%char.

(** [json.size()] *)
Definition size (s : string) : nat := String.length s.

(** [json[i]]: [std::string_view::operator[]] is defined only for
    [i < size()]; [None] stands for an access outside the view. *)
Definition at_ (s : string) (i : nat) : option ascii := String.get i s.

(** [json.substr(pos)]: the view from [pos] to the end.  The source only
    calls it with [pos <= size()]. *)
Fixpoint substr (pos : nat) (s : string) : string :=
  match pos, s with
  | 0, _ => s
  | S p, String _ t => substr p t
  | S _, EmptyString => EmptyString
  end.

(** Membership of a character in a character set given as a string. *)
Fixpoint mem (c : ascii) (set : string) : bool :=
  match set with
  | EmptyString => false
  | String d t => Ascii.eqb c d || mem c t
  end.

(** What a [const char*] argument denotes: the characters before the
    first NUL ([std::char_traits<char>::length]). *)
Fixpoint c_str (lit : string) : string :=
  match lit with
  | EmptyString => EmptyString
  | String c t => if Ascii.eqb c NUL then EmptyString else String c (c_str t)
  end.

(** [sv.find_first_not_of(set)]: index of the first character of [sv]
    that is not in [set]; [None] is [npos]. *)
Fixpoint find_first_not_of (sv set : string) : option nat :=
  match sv with
  | EmptyString => None
  | String c t =>
      if mem c set then option_map S (find_first_not_of t set) else Some 0
  end.

(** [str += ch] *)
Definition push_char (str : string) (ch : ascii) : string :=
  str ++ String ch EmptyString.

(** Test inputs are written with an apostrophe wherever the JSON text
    has a double quote: [quoted "{'a':1}"] is the seven characters
    [{"a":1}]. *)
Fixpoint quoted (s : string) : string :=
  match s with
  | EmptyString => EmptyString
  | String c t => String (if Ascii.eqb c "'"%char then DQUOTE else c) (quoted t)
  end.

End Text.

Import Text.

(* ===================================================================== *)
(** ** The value model *)
(* ===================================================================== *)

Module Model.

(** [struct JSONObject] wraps a [std::variant] of seven alternatives.
    [JSONList] is [std::vector<JSONObject>].  [JSONDict] is
    [std::unordered_map<std::string, JSONObject>]: it is kept as the list
    of its entries in the order they were inserted (the container leaves
    its iteration order open), and is only ever extended through
    [try_emplace]. *)
#[local] Unset Elimination Schemes.
Inductive JSONObject : Type :=
| JNull                                        (* std::nullptr_t *)
| JBool (b : bool)                             (* bool *)
| JInt (n : Z)                                 (* int *)
| JDouble (d : spec_float)                     (* double *)
| JString (s : string)                         (* std::string *)
| JList (l : list JSONObject)                  (* JSONList *)
| JDict (d : list (string * JSONObject)).      (* JSONDict *)

#[local] Set Elimination Schemes.

Definition JSONList := list JSONObject.
Definition JSONDict := list (string * JSONObject).

(** [res.find(key)] *)
Fixpoint dict_find (key : string) (d : JSONDict) : option JSONObject :=
  match d with
  | [] => None
  | (k, v) :: rest => if String.eqb key k then Some v else dict_find key rest
  end.

(** [res.try_emplace(key, val)]: inserts only when [key] is absent. *)
Definition try_emplace (key : string) (val : JSONObject) (d : JSONDict)
  : JSONDict :=
  match dict_find key d with
  | Some _ => d
  | None => (d ++ [(key, val)])%list
  end.

(** [std::holds_alternative<std::string>(obj.inner)] *)
Definition holds_string (obj : JSONObject) : option string :=
  match obj with JString s => Some s | _ => None end.

Definition keys (d : JSONDict) : list string := map fst d.

(** Every [JSONDict] inside a value has pairwise distinct keys. *)
Fixpoint keys_unique (obj : JSONObject) : Prop :=
  match obj with
  | JList l =>
      (fix all (l : list JSONObject) : Prop :=
         match l with [] => True | x :: r => keys_unique x /\ all r end) l
  | JDict d =>
      NoDup (map fst d) /\
      (fix all (d : list (string * JSONObject)) : Prop :=
         match d with [] => True | (_, x) :: r => keys_unique x /\ all r end) d
  | _ => True
  end.

End Model.

Import Model.

(* ===================================================================== *)
(** ** Numbers: [std::from_chars], [try_parse_num], [num_re] *)
(* ===================================================================== *)

Module Numeric.

Definition is_digit (c : ascii) : bool :=
  (nat_of_ascii "0" <=? nat_of_ascii c) && (nat_of_ascii c <=? nat_of_ascii "9").

Definition digit_val (c : ascii) : Z :=
  Z.of_nat (nat_of_ascii c - nat_of_ascii "0").

(** Longest run of decimal digits at the front of [s], and the rest. *)
Fixpoint span_digits (s : string) : string * string :=
  match s with
  | String c t =>
      if is_digit c then let (ds, r) := span_digits t in (String c ds, r)
      else (EmptyString, s)
  | EmptyString => (EmptyString, EmptyString)
  end.

(** Value of a digit string read in base ten, continuing from [acc]. *)
Fixpoint digits_val (acc : Z) (ds : string) : Z :=
  match ds with
  | EmptyString => acc
  | String c t => digits_val (10 * acc + digit_val c)%Z t
  end.

(** [std::errc] as far as [from_chars] reports it. *)
Inductive errc := errc_none | invalid_argument | result_out_of_range.

(** [std::from_chars_result] together with the output parameter: [ptr] is
    an offset from [str.data()], and [value] is [None] where [from_chars]
    leaves the output untouched. *)
Record from_chars_result (T : Type) : Type :=
  { value : option T; ptr : nat; ec : errc }.
Arguments value {T}.
Arguments ptr {T}.
Arguments ec {T}.

Definition INT_MIN : Z := (- 2 ^ 31)%Z.
Definition INT_MAX : Z := (2 ^ 31 - 1)%Z.

(** [std::from_chars(first, last, int&)] in base ten: an optional minus
    sign (never a plus sign) and the longest run of digits. *)
Definition from_chars_int (str : string) : from_chars_result Z :=
  let '(neg, body) :=
    match str with
    | String "-" t => (true, t)
    | _ => (false, str)
    end in
  let '(ds, _) := span_digits body in
  match ds with
  | EmptyString => {| value := None; ptr := 0; ec := invalid_argument |}
  | _ =>
      let p := (if neg then 1 else 0) + size ds in
      let v := (if neg then - digits_val 0 ds else digits_val 0 ds)%Z in
      if ((INT_MIN <=? v) && (v <=? INT_MAX))%Z
      then {| value := Some v; ptr := p; ec := errc_none |}
      else {| value := None; ptr := p; ec := result_out_of_range |}
  end.

(** The binary64 nearest to [m * 10 ^ e10] (ties to even), signed by
    [neg]; [m] is not negative. *)
Definition decimal_to_double (neg : bool) (m e10 : Z) : spec_float :=
  match m with
  | Zpos pm =>
      if (0 <=? e10)%Z
      then binary_normalize 53 1024
             (if neg then - (m * 10 ^ e10) else m * 10 ^ e10)%Z 0 neg
      else match (10 ^ (- e10))%Z with
           | Zpos pd =>
               SFdiv 53 1024 (S754_finite neg pm 0) (S754_finite false pd 0)
           | _ => S754_nan
           end
  | _ => S754_zero neg
  end.

(** The exponent part [[eE][+-]?digits] at the front of [s], if there is
    a complete one: its value and its length. *)
Definition scan_exponent (s : string) : option (Z * nat) :=
  match s with
  | String e t =>
      if mem e "eE" then
        let '(eneg, sl, body) :=
          match t with
          | String "-" u => (true, 1, u)
          | String "+" u => (false, 1, u)
          | _ => (false, 0, t)
          end in
        let '(ds, _) := span_digits body in
        match ds with
        | EmptyString => None
        | _ => Some ((if eneg then - digits_val 0 ds else digits_val 0 ds)%Z,
                     1 + sl + size ds)
        end
      else None
  | EmptyString => None
  end.

(** [std::from_chars(first, last, double&)] with the default
    [std::chars_format::general], on decimal text: an optional minus sign
    (never a plus sign), digits with an optional point, and an exponent
    when it is complete.  A magnitude that rounds to infinity, or a
    nonzero one that rounds to zero, is [result_out_of_range].  The
    spellings of infinity and NaN are left out: [parse] passes only text
    matched by [num_re], which has no letters but [e] and [E]. *)
Definition from_chars_double (str : string) : from_chars_result spec_float :=
  let '(neg, body) :=
    match str with
    | String "-" t => (true, t)
    | _ => (false, str)
    end in
  let '(ip, r1) := span_digits body in
  let '(fp, dot, r2) :=
    match r1 with
    | String "." t => let (fs, r) := span_digits t in (fs, 1, r)
    | _ => (EmptyString, 0, r1)
    end in
  match size ip + size fp with
  | 0 => {| value := None; ptr := 0; ec := invalid_argument |}
  | _ =>
      let '(ex, el) :=
        match scan_exponent r2 with
        | Some (x, l) => (x, l)
        | None => (0%Z, 0)
        end in
      let p := (if neg then 1 else 0) + size ip + dot + size fp + el in
      let m := digits_val (digits_val 0 ip) fp in
      let d := decimal_to_double neg m (ex - Z.of_nat (size fp)) in
      match d with
      | S754_finite _ _ _ => {| value := Some d; ptr := p; ec := errc_none |}
      | S754_zero _ =>
          if (m =? 0)%Z
          then {| value := Some d; ptr := p; ec := errc_none |}
          else {| value := None; ptr := p; ec := result_out_of_range |}
      | _ => {| value := None; ptr := p; ec := result_out_of_range |}
      end
  end.

(** [try_parse_num<T>]: the value when [from_chars] reports no error and
    stopped at the end of [str]. *)
Definition try_parse_num {T : Type}
    (from_chars : string -> from_chars_result T) (str : string) : option T :=
  let res := from_chars str in
  match ec res with
  | errc_none => if ptr res =? size str then value res else None
  | _ => None
  end.

(** *** The regular expression

    The fragment of ECMAScript patterns that [num_re] is written in:
    bracket classes, a class under [*] or [+], an optional group, and
    concatenation. *)
Inductive regex : Type :=
| Cls (set : string)
| Star (set : string)
| Plus (set : string)
| Opt (r : regex)
| Seq (r1 r2 : regex).

Definition digits : string := "0123456789".

(** The pattern of [num_re] in the source, piece by piece: an optional
    sign [+-], one or more of [0-9], optionally a point followed by any
    number of [0-9], optionally one of [eE] followed by an optional sign
    and one or more of [0-9]. *)
Definition num_re : regex :=
  Seq (Opt (Cls "+-"))
 (Seq (Plus digits)
 (Seq (Opt (Seq (Cls ".") (Star digits)))
      (Opt (Seq (Cls "eE") (Seq (Opt (Cls "+-")) (Plus digits)))))).

(** The backtracking matcher of [std::regex] (ECMAScript rules): every
    quantifier is greedy and gives characters back only when what follows
    cannot match.  [n] counts the characters matched so far and [k] is
    what remains to be matched after the current subpattern. *)
Fixpoint bt_star (set s : string) (n : nat)
    (k : string -> nat -> option nat) : option nat :=
  match s with
  | String c t =>
      if mem c set then
        match bt_star set t (S n) k with
        | Some r => Some r
        | None => k s n
        end
      else k s n
  | EmptyString => k s n
  end.

Fixpoint bt (r : regex) (s : string) (n : nat)
    (k : string -> nat -> option nat) : option nat :=
  match r with
  | Cls set =>
      match s with
      | String c t => if mem c set then k t (S n) else None
      | EmptyString => None
      end
  | Star set => bt_star set s n k
  | Plus set =>
      match s with
      | String c t => if mem c set then bt_star set t (S n) k else None
      | EmptyString => None
      end
  | Opt r1 =>
      match bt r1 s n k with
      | Some x => Some x
      | None => k s n
      end
  | Seq r1 r2 => bt r1 s n (fun s' n' => bt r2 s' n' k)
  end.

(** Length of the match of [r] that starts at the front of [s]. *)
Definition match_at (r : regex) (s : string) : option nat :=
  bt r s 0 (fun _ n => Some n).

(** [std::regex_search(first, last, match, re)]: the match at the
    leftmost position of the text where there is one.  The result is
    [match.position()] (counted from [pos]) and [match.str()]. *)
Fixpoint regex_search (r : regex) (s : string) (pos : nat)
  : option (nat * string) :=
  match match_at r s with
  | Some n => Some (pos, substring 0 n s)
  | None =>
      match s with
      | String _ t => regex_search r t (S pos)
      | EmptyString => None
      end
  end.

End Numeric.

Import Numeric.

(* ===================================================================== *)
(** ** The parser *)
(* ===================================================================== *)

Module Parser.

(** [char unescaped_char(char c)] *)
Definition unescaped_char (c : ascii) : ascii :=
  match c with
  | "n"%char => LF
  | "r"%char => CR
  | "0"%char => NUL
  | "t"%char => TAB
  | "v"%char => VT
  | "f"%char => FF
  | "b"%char => BS
  | "a"%char => BEL
  | _ => c
  end.

(** What a call of [parse] comes to.  [Done obj eaten] is the returned
    pair.  [OutOfRange] records that the call evaluated [json[i]] with
    [i >= json.size()], which [std::string_view] leaves undefined.
    [NoFuel] belongs to the embedding only: the recursion below is
    bounded by a counter, and [parse_fuel_enough] shows that the bound
    [parse] starts from is never reached. *)
Inductive outcome : Type :=
| Done (obj : JSONObject) (eaten : nat)
| OutOfRange
| NoFuel.

(** The string literal passed to [find_first_not_of], character by
    character: [" \n\r\t\v\f\0"]. *)
Definition whitespace_literal : string :=
  String " " (String LF (String CR (String TAB (String VT (String FF
    (String NUL EmptyString)))))).

(** The literal reaches [find_first_not_of] as a [const char*]. *)
Definition whitespace : string := c_str whitespace_literal.

Inductive phase := Raw | Escaped.

(** The loop of the string branch, [for (i = 1; i < json.size(); i++)]:
    [rest] is [json.substr(i)], so that [ch = json[i]] is its head, and
    the result is the pair of [str] and [i] when the loop is left. *)
Fixpoint scan_string (rest : string) (ph : phase) (str : string) (i : nat)
  : string * nat :=
  match rest with
  | EmptyString => (str, i)
  | String ch t =>
      match ph with
      | Raw =>
          if Ascii.eqb ch BACKSLASH then scan_string t Escaped str (S i)
          else if Ascii.eqb ch DQUOTE then (str, i + 1)
          else scan_string t Raw (push_char str ch) (S i)
      | Escaped =>
          scan_string t Raw (push_char str (unescaped_char ch)) (S i)
      end
  end.

Section Loops.

(** The recursive calls [parse(json.substr(i))] of the two loops. *)
Variable parse : string -> outcome.
Variable json : string.

(** The loop of the list branch, [for (i = 1; i < json.size();)],
    entered with index [i] and the vector [res]; [at_ json i = None]
    is the loop condition turning false.  [fuel] bounds the number of
    iterations, each of which moves [i] forward. *)
Fixpoint list_loop (fuel i : nat) (res : JSONList) : outcome :=
  match at_ json i with
  | None => Done (JList res) i
  | Some c =>
      match fuel with
      | 0 => NoFuel
      | S fuel' =>
          if Ascii.eqb c "]" then Done (JList res) (i + 1)
          else
            match parse (substr i json) with
            | Done obj eaten =>
                if eaten =? 0 then Done (JList res) 0
                else
                  let i := i + eaten in
                  match at_ json i with
                  | None => OutOfRange
                  | Some c' =>
                      list_loop fuel'
                        (if Ascii.eqb c' "," then i + 1 else i)
                        (res ++ [obj])%list
                  end
            | other => other
            end
      end
  end.

(** The loop of the dictionary branch. *)
Fixpoint dict_loop (fuel i : nat) (res : JSONDict) : outcome :=
  match at_ json i with
  | None => Done (JDict res) i
  | Some c =>
      match fuel with
      | 0 => NoFuel
      | S fuel' =>
          if Ascii.eqb c "}" then Done (JDict res) (i + 1)
          else
            match parse (substr i json) with
            | Done keyobj keyeaten =>
                if keyeaten =? 0 then Done (JDict res) 0
                else
                  let i := i + keyeaten in
                  match holds_string keyobj with
                  | None => Done (JDict res) 0
                  | Some key =>
                      match at_ json i with
                      | None => OutOfRange
                      | Some c1 =>
                          let i := if Ascii.eqb c1 ":" then i + 1 else i in
                          match parse (substr i json) with
                          | Done valobj valeaten =>
                              if valeaten =? 0 then Done (JDict res) 0
                              else
                                let i := i + valeaten in
                                let res := try_emplace key valobj res in
                                match at_ json i with
                                | None => OutOfRange
                                | Some c2 =>
                                    dict_loop fuel'
                                      (if Ascii.eqb c2 "," then i + 1 else i)
                                      res
                                end
                          | other => other
                          end
                      end
                  end
            | other => other
            end
      end
  end.

End Loops.

(** [std::pair<JSONObject, size_t> parse(std::string_view json)], with
    the depth of recursion bounded by [fuel].  Indices and consumed
    lengths are [size_t] in the source and natural numbers here; the
    wrap-around of [size_t] is not modelled. *)
Fixpoint parse_fuel (fuel : nat) (json : string) : outcome :=
  match fuel with
  | 0 => NoFuel
  | S fuel' =>
      match json with
      | EmptyString => Done JNull 0
      | String c0 _ =>
          match find_first_not_of json whitespace with
          | Some (S off') =>
              let off := S off' in
              match parse_fuel fuel' (substr off json) with
              | Done obj eaten => Done obj (eaten + off)
              | other => other
              end
          | _ =>
              if Ascii.eqb c0 "t" || Ascii.eqb c0 "f" then
                if Ascii.eqb c0 "t" then Done (JBool true) 4
                else if Ascii.eqb c0 "f" then Done (JBool false) 5
                else Done JNull 0
              else if is_digit c0 || Ascii.eqb c0 "+" || Ascii.eqb c0 "-" then
                match regex_search num_re json 0 with
                | Some (_, str) =>
                    match try_parse_num from_chars_int str with
                    | Some num => Done (JInt num) (size str)
                    | None =>
                        match try_parse_num from_chars_double str with
                        | Some num => Done (JDouble num) (size str)
                        | None => Done JNull 0
                        end
                    end
                | None => Done JNull 0
                end
              else if Ascii.eqb c0 DQUOTE then
                let (str, i) := scan_string (substr 1 json) Raw EmptyString 1 in
                Done (JString str) i
              else if Ascii.eqb c0 "[" then
                list_loop (parse_fuel fuel') json (size json) 1 []
              else if Ascii.eqb c0 "{" then
                dict_loop (parse_fuel fuel') json (size json) 1 []
              else Done JNull 0
          end
      end
  end.

(** [parse(json)]: no call nests deeper than [json] is long. *)
Definition parse (json : string) : outcome :=
  parse_fuel (S (size json)) json.

End Parser.

Import Parser.

(* ===================================================================== *)
(** ** Notions used to state the properties *)
(* ===================================================================== *)

(** The characters [unescaped_char] has a case for. *)
Definition escape_codes : string := "nr0tvfba".

(** The two definitions below follow the wording of the specification
    rather than the loop: whether a scan that starts in phase [ph] runs to
    the end of [body] without meeting a quote in the [Raw] phase, and the
    characters such a scan has accumulated, escapes resolved. *)
Fixpoint unterminated (ph : phase) (body : string) : bool :=
  match body, ph with
  | EmptyString, _ => true
  | String ch t, Escaped => unterminated Raw t
  | String ch t, Raw =>
      if Ascii.eqb ch BACKSLASH then unterminated Escaped t
      else if Ascii.eqb ch DQUOTE then false
      else unterminated Raw t
  end.

Fixpoint accumulated (ph : phase) (body : string) : string :=
  match body, ph with
  | EmptyString, _ => EmptyString
  | String ch t, Escaped => String (unescaped_char ch) (accumulated Raw t)
  | String ch t, Raw =>
      if Ascii.eqb ch BACKSLASH then accumulated Escaped t
      else if Ascii.eqb ch DQUOTE then EmptyString
      else String ch (accumulated Raw t)
  end.

(** The text that [main] hands to [parse].  The source writes it as a raw
    string literal, in which the backslash and the n are two characters. *)
Definition main_str : string := quoted "{'math': true, 'english': 'good\n'}".

(** The first characters that select a branch of [parse]. *)
Definition dispatch_chars : string := String DQUOTE "tf0123456789+-[{".

(** Whether a scan that starts in phase [ph] runs through [body] without
    meeting a quote in the [Raw] phase and is in the [Raw] phase at its
    end, so that a quote after [body] closes the literal. *)
Fixpoint closable (ph : phase) (body : string) : bool :=
  match body, ph with
  | EmptyString, Raw => true
  | EmptyString, Escaped => false
  | String ch t, Escaped => closable Raw t
  | String ch t, Raw =>
      if Ascii.eqb ch BACKSLASH then closable Escaped t
      else if Ascii.eqb ch DQUOTE then false
      else closable Raw t
  end.

(** A way to write any text between quotes: a backslash before every
    quote and every backslash, all other characters as they are. *)
Fixpoint escape_text (s : string) : string :=
  match s with
  | EmptyString => EmptyString
  | String c t =>
      if Ascii.eqb c BACKSLASH || Ascii.eqb c DQUOTE
      then String BACKSLASH (String c (escape_text t))
      else String c (escape_text t)
  end.

(** Every number inside a value is one that [from_chars] delivers: an
    [int] within its 32 bits, a [double] that is finite. *)
Fixpoint numbers_ok (obj : JSONObject) : Prop :=
  match obj with
  | JInt n => (INT_MIN <= n <= INT_MAX)%Z
  | JDouble d =>
      match d with
      | S754_finite _ _ _ | S754_zero _ => True
      | _ => False
      end
  | JList l =>
      (fix all (l : list JSONObject) : Prop :=
         match l with [] => True | x :: r => numbers_ok x /\ all r end) l
  | JDict d =>
      (fix all (d : list (string * JSONObject)) : Prop :=
         match d with [] => True | (_, x) :: r => numbers_ok x /\ all r end) d
  | _ => True
  end.

(** A text made of decimal digits only. *)
Fixpoint all_digits (s : string) : bool :=
  match s with
  | EmptyString => true
  | String c t => is_digit c && all_digits t
  end.

(** What may follow a number without being taken into it: the end of the
    text, or a character other than a digit, a point and the letter e. *)
Definition ends_number (rest : string) : bool :=
  match rest with
  | EmptyString => true
  | String c _ => negb (mem c "0123456789.eE")
  end.

(** What may follow an item of a list or a dictionary: a comma or a
    closing bracket. *)
Definition closes_item (tail : string) : bool :=
  match tail with
  | EmptyString => false
  | String c _ => mem c ",]}"
  end.

(** [text] is a way of writing [obj] as an item: it is not empty and,
    followed by anything that closes an item, it parses to [obj] and is
    consumed exactly. *)
Definition reads (text : string) (obj : JSONObject) : Prop :=
  text <> EmptyString /\
  forall tail, closes_item tail = true ->
               parse (text ++ tail) = Done obj (size text).

(** Texts put one after the other with a comma between them. *)
Fixpoint join (texts : list string) : string :=
  match texts with
  | [] => EmptyString
  | t :: ts =>
      match ts with
      | [] => t
      | _ => t ++ String "," (join ts)
      end
  end.

(** A key written as a literal. *)
Definition key_literal (key : string) : string :=
  String DQUOTE (escape_text key ++ String DQUOTE EmptyString).

(** An entry of a dictionary as it is written: the key as a literal, a
    colon, and the text of the value. *)
Definition entry_text (e : string * string * JSONObject) : string :=
  let '(key, text, _) := e in key_literal key ++ String ":" text.

(** The dictionary that [try_emplace] builds from entries in order. *)
Definition emplace_all (d : JSONDict)
    (entries : list (string * string * JSONObject)) : JSONDict :=
  fold_left (fun acc e => let '(key, _, obj) := e in try_emplace key obj acc)
            entries d.

(** The value of the first entry written with the key [key]. *)
Fixpoint first_value (key : string)
    (entries : list (string * string * JSONObject)) : option JSONObject :=
  match entries with
  | [] => None
  | (k, _, obj) :: rest =>
      if String.eqb key k then Some obj else first_value key rest
  end.

(** An entry whose value text reads as an item. *)
Definition entry_reads (e : string * string * JSONObject) : Prop :=
  let '(_, text, obj) := e in reads text obj.

(** A text made of opening brackets and braces only. *)
Fixpoint all_open (s : string) : bool :=
  match s with
  | EmptyString => true
  | String c t => mem c "[{" && all_open t
  end.

(* ===================================================================== *)
(** ** Facts about string views *)
(* ===================================================================== *)

Lemma size_substr (pos : nat) (s : string) :
  size (substr pos s) = size s - pos.
Proof.
  revert s; induction pos as [|p IH]; intros s; simpl.
  - unfold size; lia.
  - destruct s as [|c t]; simpl; [reflexivity|]. apply IH.
Qed.

Lemma at_Some_lt (s : string) (i : nat) (c : ascii) :
  at_ s i = Some c -> i < size s.
Proof.
  unfold at_, size. revert i; induction s as [|d t IH]; intros i; simpl.
  - discriminate.
  - destruct i as [|i]; [lia|]. intros H. apply IH in H. lia.
Qed.

Lemma find_first_not_of_lt (sv set : string) (off : nat) :
  find_first_not_of sv set = Some off -> off < size sv.
Proof.
  unfold size. revert off; induction sv as [|c t IH]; intros off; simpl.
  - discriminate.
  - destruct (mem c set).
    + destruct (find_first_not_of t set) as [k|]; simpl; [|discriminate].
      intros [= <-]. specialize (IH k eq_refl). lia.
    + intros [= <-]. lia.
Qed.

(* ===================================================================== *)
(** ** Termination: the bound on the recursion is never reached *)
(* ===================================================================== *)

Section Termination.


Lemma size_substr_lt (json : string) (i : nat) (c : ascii) :
  1 <= i -> at_ json i = Some c -> size (substr i json) < size json.
Proof.
  intros Hi Hc. apply at_Some_lt in Hc. rewrite size_substr. lia.
Qed.

Lemma size_substr_after (json : string) (i : nat) (c : ascii) (b : bool) :
  1 <= i -> at_ json i = Some c ->
  size (substr (if b then i + 1 else i) json) < size json.
Proof.
  intros Hi Hc. apply at_Some_lt in Hc. rewrite size_substr.
  destruct b; lia.
Qed.

Variable rec : string -> outcome.
Variable json : string.
Hypothesis rec_fuel : forall s, size s < size json -> rec s <> NoFuel.



End Termination.

Lemma whitespace_offset_lt (json : string) (off : nat) :
  find_first_not_of json whitespace = Some off ->
  size (substr off json) < S (size json) - off /\ off < size json.
Proof.
  intros H. apply find_first_not_of_lt in H. rewrite size_substr. lia.
Qed.



(* ===================================================================== *)
(** ** The recursion equation of [parse] *)
(* ===================================================================== *)

Section Extensionality.

Variables rec1 rec2 : string -> outcome.
Variable json : string.
Hypothesis rec_eq : forall s, size s < size json -> rec1 s = rec2 s.

Lemma list_loop_ext (fuel i : nat) (res : JSONList) :
  1 <= i -> list_loop rec1 json fuel i res = list_loop rec2 json fuel i res.
Proof.
  revert i res. induction fuel as [|fuel IH]; intros i res Hi; simpl;
    [reflexivity|].
  destruct (at_ json i) as [c|] eqn:Hc; [|reflexivity].
  destruct (Ascii.eqb c "]"); [reflexivity|].
  rewrite (rec_eq _ (size_substr_lt _ _ _ Hi Hc)).
  destruct (rec2 (substr i json)) as [obj eaten| |]; try reflexivity.
  destruct (Nat.eqb_spec eaten 0); [reflexivity|].
  destruct (at_ json (i + eaten)) as [c'|]; [|reflexivity].
  apply IH. destruct (Ascii.eqb c' ","); lia.
Qed.

Lemma dict_loop_ext (fuel i : nat) (res : JSONDict) :
  1 <= i -> dict_loop rec1 json fuel i res = dict_loop rec2 json fuel i res.
Proof.
  revert i res. induction fuel as [|fuel IH]; intros i res Hi; simpl;
    [reflexivity|].
  destruct (at_ json i) as [c|] eqn:Hc; [|reflexivity].
  destruct (Ascii.eqb c "}"); [reflexivity|].
  rewrite (rec_eq _ (size_substr_lt _ _ _ Hi Hc)).
  destruct (rec2 (substr i json)) as [keyobj keyeaten| |]; try reflexivity.
  destruct (Nat.eqb_spec keyeaten 0); [reflexivity|].
  destruct (holds_string keyobj) as [key|]; [|reflexivity].
  destruct (at_ json (i + keyeaten)) as [c1|] eqn:Hc1; [|reflexivity].
  assert (Hi1 : 1 <= i + keyeaten) by lia.
  rewrite (rec_eq _ (size_substr_after _ _ _ (Ascii.eqb c1 ":") Hi1 Hc1)).
  destruct (rec2 (substr _ json)) as [valobj valeaten| |]; try reflexivity.
  destruct (Nat.eqb_spec valeaten 0); [reflexivity|].
  match goal with
  | |- context [at_ json ?j] => destruct (at_ json j) as [c2|]
  end; [|reflexivity].
  apply IH. destruct (Ascii.eqb c1 ":"), (Ascii.eqb c2 ","); lia.
Qed.

End Extensionality.

(** Any two amounts of fuel above the length of the input give the same
    result. *)
Lemma parse_fuel_irrelevant (n : nat) :
  forall m json, size json < n -> size json < m ->
  parse_fuel n json = parse_fuel m json.
Proof.
  induction n as [|n IH]; intros m json Hn Hm; [lia|].
  destruct m as [|m]; [lia|].
  destruct json as [|c0 t]; [reflexivity|].
  cbn [parse_fuel].
  destruct (find_first_not_of (String c0 t) whitespace) as [[|off']|] eqn:Hoff.
  2: { apply whitespace_offset_lt in Hoff.
       rewrite (IH m (substr (S off') (String c0 t))) by lia. reflexivity. }
  all: rewrite (list_loop_ext (parse_fuel n) (parse_fuel m) (String c0 t))
         by (try (intros s Hs; apply IH); lia).
  all: rewrite (dict_loop_ext (parse_fuel n) (parse_fuel m) (String c0 t))
         by (try (intros s Hs; apply IH); lia).
  all: reflexivity.
Qed.

(** [parse] of a recursive call is the recursive call of [parse]. *)
Lemma parse_fuel_parse (json s : string) :
  size s < size json -> parse_fuel (size json) s = parse s.
Proof.
  intros H. unfold parse. apply parse_fuel_irrelevant; lia.
Qed.

(** Rule 2 as the code has it: when the first character outside the set
    [whitespace] sits at a nonzero offset [off], the result is that of the
    remainder with [off] added to its consumed length. *)
Lemma parse_skip_whitespace (json : string) (off : nat) :
  find_first_not_of json whitespace = Some off -> off <> 0 ->
  parse json =
    match parse (substr off json) with
    | Done obj eaten => Done obj (eaten + off)
    | other => other
    end.
Proof.
  intros Hoff Hne. destruct off as [|off']; [easy|].
  pose proof (whitespace_offset_lt _ _ Hoff) as [Hs Hlt].
  destruct json as [|c0 t]; [discriminate|].
  unfold parse at 1. cbn [parse_fuel]. rewrite Hoff.
  rewrite parse_fuel_parse by lia. reflexivity.
Qed.

(* ===================================================================== *)
(** ** Literals: booleans *)
(* ===================================================================== *)

(** C7.  An input whose first character is [t] parses to the boolean true
    with consumed length 4 and one whose first character is [f] to the
    boolean false with consumed length 5, whatever follows that first
    character; so the text truefoo gives true and 4. *)
Theorem bool_literal_unchecked :
  (forall rest, parse (String "t" rest) = Done (JBool true) 4) /\
  (forall rest, parse (String "f" rest) = Done (JBool false) 5) /\
  parse "truefoo" = Done (JBool true) 4.
Proof.
  repeat split; intros; reflexivity.
Qed.

(** C10.  The consumed length is not bounded by the length of the input:
    the one-character inputs t and f give 4 and 5. *)
Theorem eaten_exceeds_input :
  parse "t" = Done (JBool true) 4 /\ size "t" < 4 /\
  parse "f" = Done (JBool false) 5 /\ size "f" < 5 /\
  ~ (forall json obj eaten, parse json = Done obj eaten -> eaten <= size json).
Proof.
  repeat split; try reflexivity; try (cbn; lia).
  intros H. specialize (H "t" (JBool true) 4 eq_refl). cbn in H. lia.
Qed.

(* ===================================================================== *)
(** ** Strings and escapes *)
(* ===================================================================== *)

Lemma unescaped_char_other (c : ascii) :
  mem c escape_codes = false -> unescaped_char c = c.
Proof.
  destruct c as [[] [] [] [] [] [] [] []]; cbn; intros H;
    try reflexivity; discriminate H.
Qed.

(** C9.  [unescaped_char] sends n, r, 0, t, v, f, b, a to newline,
    carriage return, NUL, tab, vertical tab, form feed, backspace and bell,
    and every other character (the double quote, the backslash and the
    slash among them) to itself; the six characters quote, a, backslash,
    t, b, quote parse to the text a, tab, b with consumed length 6. *)
Theorem unescaped_char_table :
  (unescaped_char "n" = LF /\ unescaped_char "r" = CR /\
   unescaped_char "0" = NUL /\ unescaped_char "t" = TAB /\
   unescaped_char "v" = VT /\ unescaped_char "f" = FF /\
   unescaped_char "b" = BS /\ unescaped_char "a" = BEL) /\
  (forall c, mem c escape_codes = false -> unescaped_char c = c) /\
  (unescaped_char DQUOTE = DQUOTE /\ unescaped_char BACKSLASH = BACKSLASH /\
   unescaped_char "/" = "/"%char) /\
  parse (quoted "'a\tb'") = Done (JString (String "a" (String TAB "b"))) 6.
Proof.
  split; [repeat split|].
  split; [exact unescaped_char_other|].
  split; [repeat split|].
  reflexivity.
Qed.

Lemma unescaped_char_table_witness :
  mem "u" escape_codes = false /\ unescaped_char "u" = "u"%char.
Proof.
  split; [reflexivity|].
  apply (proj1 (proj2 unescaped_char_table) "u"%char). reflexivity.
Defined.

Lemma push_char_append (str : string) (ch : ascii) (t : string) :
  push_char str ch ++ t = str ++ String ch t.
Proof.
  unfold push_char. induction str as [|c s IH]; simpl; [reflexivity|].
  now rewrite IH.
Qed.

Lemma append_empty (s : string) : s ++ EmptyString = s.
Proof. induction s as [|c s IH]; simpl; congruence. Qed.

(** The loop of the string branch, when it runs off the end of the input:
    it has appended [accumulated ph rest] to [str] and stepped over every
    character of [rest]. *)
Lemma scan_string_unterminated (rest : string) :
  forall ph str i,
    unterminated ph rest = true ->
    scan_string rest ph str i = (str ++ accumulated ph rest, i + size rest).
Proof.
  induction rest as [|ch t IH]; intros ph str i H; simpl.
  - rewrite append_empty. f_equal. cbn. lia.
  - destruct ph; simpl in H.
    + destruct (Ascii.eqb ch BACKSLASH).
      * rewrite IH by exact H. f_equal. cbn. lia.
      * destruct (Ascii.eqb ch DQUOTE); [discriminate|].
        rewrite IH by exact H. rewrite push_char_append. f_equal. cbn. lia.
    + rewrite IH by exact H. rewrite push_char_append. f_equal. cbn. lia.
Qed.

(** C8.  An input that opens with a double quote and whose scan reaches the
    end of the input without meeting a closing quote in the Raw phase is
    not rejected: [parse] returns the text accumulated so far, escapes
    resolved, and a consumed length that is the length of the whole input,
    which is not zero. *)
Theorem unterminated_string_accepted (body : string) :
  unterminated Raw body = true ->
  parse (String DQUOTE body) =
    Done (JString (accumulated Raw body)) (size (String DQUOTE body)) /\
  size (String DQUOTE body) <> 0.
Proof.
  intros H. split; [|cbn; lia].
  unfold parse. cbn -[scan_string].
  rewrite (scan_string_unterminated body Raw EmptyString 1 H).
  reflexivity.
Qed.

Lemma unterminated_string_accepted_witness :
  unterminated Raw "abc\" = true /\
  parse (quoted "'abc\") = Done (JString "abc") 5.
Proof.
  split; [reflexivity|].
  exact (proj1 (unterminated_string_accepted "abc\" eq_refl)).
Defined.

(* ===================================================================== *)
(** ** Whitespace *)
(* ===================================================================== *)

(** The set that reaches [find_first_not_of] stops before the NUL that
    closes the literal. *)
Lemma whitespace_chars :
  whitespace = String " " (String LF (String CR (String TAB (String VT
                 (String FF EmptyString))))).
Proof. reflexivity. Qed.

(** C5, on the code.  NUL is written in the literal but is not in the set
    the search uses: on the two characters NUL, t the search stops at
    offset 0, no branch takes the NUL, and [parse] returns null with
    consumed length 0, where a leading space is skipped and counted. *)
Theorem leading_nul_not_skipped :
  mem NUL whitespace_literal = true /\
  mem NUL whitespace = false /\
  find_first_not_of (String NUL "t") whitespace = Some 0 /\
  parse (String NUL "t") = Done JNull 0 /\
  parse " t" = Done (JBool true) 5.
Proof.
  repeat split; reflexivity.
Qed.

(* ===================================================================== *)
(** ** Lists and dictionaries: failure and separators *)
(* ===================================================================== *)

(** A failure behind skipped characters comes back with a consumed length
    that is not zero. *)
Lemma whitespace_masks_failure (json : string) (off : nat) (obj : JSONObject) :
  find_first_not_of json whitespace = Some off -> off <> 0 ->
  parse (substr off json) = Done obj 0 ->
  parse json = Done obj off /\ off <> 0.
Proof.
  intros Hoff Hne Hfail.
  rewrite (parse_skip_whitespace json off Hoff Hne), Hfail. now split.
Qed.

(** An element that the list loop parses directly and that reports zero
    makes the loop return zero at once, with the elements pushed so far. *)
Lemma list_loop_element_failure
    (rec : string -> outcome) (json : string) (fuel i : nat)
    (res : JSONList) (c : ascii) (obj : JSONObject) :
  at_ json i = Some c -> Ascii.eqb c "]" = false ->
  rec (substr i json) = Done obj 0 ->
  list_loop rec json (S fuel) i res = Done (JList res) 0.
Proof.
  intros Hc Hb Hr. simpl. now rewrite Hc, Hb, Hr.
Qed.

(** C1, on the code.  In the text [1, , 3] the second element is parsed
    from a space followed by a comma: the comma alone reports zero, the
    call that skipped the space reports one, and the list loop goes on.
    The whole parse returns a list of three elements and consumed length
    8, not consumed length 0.  Where a list does fail, as on [1,x], it
    returns the elements collected so far next to the zero. *)
Theorem malformed_element_not_propagated :
  parse ", 3]" = Done JNull 0 /\
  parse " , 3]" = Done JNull 1 /\
  parse "[1, , 3]" = Done (JList [JInt 1; JNull; JInt 3]) 8 /\
  parse "[1,x]" = Done (JList [JInt 1]) 0.
Proof.
  repeat split; reflexivity.
Qed.

(** C2, on the code.  After an element or a key or a value has been
    consumed the loops read [json[i]] without comparing [i] with
    [json.size()]: on the two characters [1 the comma inspection is at
    index 2, and an unfinished dictionary runs into the same at its colon
    and comma inspections. *)
Theorem separator_inspection_out_of_range :
  size "[1" = 2 /\ parse "1" = Done (JInt 1) 1 /\ at_ "[1" (1 + 1) = None /\
  parse "[1" = OutOfRange /\
  parse (quoted "{'a'") = OutOfRange /\
  parse (quoted "{'a':1") = OutOfRange.
Proof.
  repeat split; reflexivity.
Qed.

(* ===================================================================== *)
(** ** Numbers *)
(* ===================================================================== *)

Lemma bt_star_total (set : string) (k : string -> nat -> option nat) :
  (forall s n, k s n <> None) -> forall s n, bt_star set s n k <> None.
Proof.
  intros Hk s. induction s as [|c t IH]; intros n; simpl; [apply Hk|].
  destruct (mem c set); [|apply Hk].
  specialize (IH (S n)). destruct (bt_star set t (S n) k); easy.
Qed.

Lemma bt_opt_total (r : regex) (k : string -> nat -> option nat) :
  (forall s n, k s n <> None) -> forall s n, bt (Opt r) s n k <> None.
Proof.
  intros Hk s n. simpl. specialize (Hk s n).
  destruct (bt r s n k); easy.
Qed.

Lemma is_digit_mem (c : ascii) :
  is_digit c = true -> mem c digits = true /\ mem c "+-" = false.
Proof.
  destruct c as [[] [] [] [] [] [] [] []]; cbn; intros H;
    try discriminate H; split; reflexivity.
Qed.

Lemma bt_seq (r1 r2 : regex) (s : string) (n : nat)
    (k : string -> nat -> option nat) :
  bt (Seq r1 r2) s n k = bt r1 s n (fun s' n' => bt r2 s' n' k).
Proof. reflexivity. Qed.

Lemma bt_opt_cls_miss (set : string) (c : ascii) (t : string) (n : nat)
    (k : string -> nat -> option nat) :
  mem c set = false -> bt (Opt (Cls set)) (String c t) n k = k (String c t) n.
Proof. intros H. simpl. now rewrite H. Qed.

Lemma bt_plus_hit (set : string) (c : ascii) (t : string) (n : nat)
    (k : string -> nat -> option nat) :
  mem c set = true -> bt (Plus set) (String c t) n k = bt_star set t (S n) k.
Proof. intros H. simpl. now rewrite H. Qed.

(** When the text starts with a digit, [num_re] matches at its front. *)
Lemma match_at_digit (c : ascii) (t : string) :
  is_digit c = true -> match_at num_re (String c t) <> None.
Proof.
  intros H. apply is_digit_mem in H as [Hd Hs].
  unfold match_at, num_re.
  rewrite bt_seq, (bt_opt_cls_miss _ _ _ _ _ Hs).
  rewrite bt_seq, (bt_plus_hit _ _ _ _ _ Hd).
  apply bt_star_total. intros s n. rewrite bt_seq.
  apply bt_opt_total. intros s' n'. now apply bt_opt_total.
Qed.

(** ... and so [regex_search] reports position 0. *)
Lemma regex_search_digit (c : ascii) (t : string) :
  is_digit c = true ->
  exists n, regex_search num_re (String c t) 0
            = Some (0, substring 0 n (String c t)).
Proof.
  intros H. apply (match_at_digit c t) in H.
  destruct (match_at num_re (String c t)) as [n|] eqn:E; [|easy].
  exists n. cbn [regex_search]. now rewrite E.
Qed.

(** C3, on the code.  The search is not tied to the front of the text: on
    the four characters -x12 the pattern does not match at the front, the
    search finds 12 at offset 2, and [parse] returns the integer 12 with
    consumed length 2, although no prefix of the text is a number. *)
Theorem number_match_not_at_front :
  match_at num_re "-x12" = None /\
  regex_search num_re "-x12" 0 = Some (2, "12") /\
  parse "-x12" = Done (JInt 12) 2 /\
  parse "12" = Done (JInt 12) 2.
Proof.
  repeat split; reflexivity.
Qed.

(* ===================================================================== *)
(** ** The demonstration input of [main] *)
(* ===================================================================== *)

(** C4 as stated fails: the consumed length is not 38. *)
Lemma main_str_eaten_not_38 :
  ~ (exists d, parse main_str = Done (JDict d) 38 /\ size main_str = 38 /\
       dict_find "math" d = Some (JBool true) /\
       dict_find "english" d = Some (JString (push_char "good" LF))).
Proof.
  intros (d & H & _). vm_compute in H. discriminate H.
Qed.

(** C4, amended.  [parse] on the text of [main] returns a dictionary with
    exactly two entries, math bound to the boolean true and english bound
    to the text good followed by a newline character, and its consumed
    length is the length of the whole input, which is 35. *)
Theorem main_str_parses :
  exists d, parse main_str = Done (JDict d) 35 /\ size main_str = 35 /\
    dict_find "math" d = Some (JBool true) /\
    dict_find "english" d = Some (JString (push_char "good" LF)) /\
    List.length d = 2.
Proof.
  exists [("math", JBool true); ("english", JString (push_char "good" LF))].
  repeat split.
Qed.

(* ===================================================================== *)
(** ** Dictionaries: keys *)
(* ===================================================================== *)

Lemma keys_unique_list (l : JSONList) :
  keys_unique (JList l) <-> Forall keys_unique l.
Proof.
  induction l as [|x r IH]; simpl.
  - split; auto.
  - split.
    + intros [Hx Hr]. constructor; [exact Hx|]. now apply IH.
    + intros H. inversion H; subst. split; [assumption|]. now apply IH.
Qed.

Lemma keys_unique_dict (d : JSONDict) :
  keys_unique (JDict d) <->
  NoDup (keys d) /\ Forall (fun kv => keys_unique (snd kv)) d.
Proof.
  unfold keys. simpl. apply and_iff_compat_l.
  induction d as [|[k x] r IH]; simpl.
  - split; auto.
  - split.
    + intros [Hx Hr]. constructor; [exact Hx|]. now apply IH.
    + intros H. inversion H; subst. split; [assumption|]. now apply IH.
Qed.

Lemma dict_find_None (key : string) (d : JSONDict) :
  dict_find key d = None <-> ~ In key (keys d).
Proof.
  unfold keys. induction d as [|[k v] r IH]; simpl.
  - tauto.
  - destruct (String.eqb_spec key k) as [->|Hne].
    + split; [discriminate|]. intros H. exfalso. apply H. now left.
    + rewrite IH. split.
      * intros H [E|E]; [congruence|contradiction].
      * intros H E. apply H. now right.
Qed.

Lemma dict_find_app (key : string) (d e : JSONDict) (old : JSONObject) :
  dict_find key d = Some old -> dict_find key (d ++ e)%list = Some old.
Proof.
  induction d as [|[k v] r IH]; simpl; [discriminate|].
  destruct (String.eqb key k); [trivial|exact IH].
Qed.

(** [try_emplace] leaves every entry that is already there as it is. *)
Lemma try_emplace_keeps (key k : string) (v old : JSONObject) (d : JSONDict) :
  dict_find key d = Some old -> dict_find key (try_emplace k v d) = Some old.
Proof.
  intros H. unfold try_emplace.
  destruct (dict_find k d); [exact H|]. now apply dict_find_app.
Qed.

(** A pair whose key is already there is dropped. *)
Lemma try_emplace_seen (k : string) (v old : JSONObject) (d : JSONDict) :
  dict_find k d = Some old -> try_emplace k v d = d.
Proof.
  intros H. unfold try_emplace. now rewrite H.
Qed.

Lemma try_emplace_unique (k : string) (v : JSONObject) (d : JSONDict) :
  keys_unique (JDict d) -> keys_unique v ->
  keys_unique (JDict (try_emplace k v d)).
Proof.
  rewrite !keys_unique_dict. intros [Hnd Hall] Hv. unfold try_emplace.
  destruct (dict_find k d) eqn:E; [now split|].
  apply dict_find_None in E. unfold keys in *. split.
  - rewrite map_app. apply NoDup_app; [exact Hnd| |].
    + simpl. constructor; [intros []|constructor].
    + intros a Ha [<-|[]]. contradiction.
  - apply Forall_app. split; [exact Hall|]. now repeat constructor.
Qed.

Section LoopInvariants.

Variable rec : string -> outcome.
Variable json : string.

Section Unique.

Hypothesis rec_unique :
  forall s obj eaten, rec s = Done obj eaten -> keys_unique obj.

Lemma list_loop_unique (fuel : nat) :
  forall i res out eaten,
    keys_unique (JList res) ->
    list_loop rec json fuel i res = Done out eaten -> keys_unique out.
Proof.
  induction fuel as [|fuel IH]; intros i res out eaten Hres; simpl.
  - destruct (at_ json i); [discriminate|]. now intros [= <- _].
  - destruct (at_ json i) as [c|]; [|now intros [= <- _]].
    destruct (Ascii.eqb c "]"); [now intros [= <- _]|].
    destruct (rec (substr i json)) as [obj n| |] eqn:Hr; try discriminate.
    destruct (n =? 0); [now intros [= <- _]|].
    destruct (at_ json (i + n)) as [c'|]; [|discriminate].
    apply IH. apply keys_unique_list, Forall_app.
    split; [now apply keys_unique_list|].
    constructor; [|constructor]. exact (rec_unique _ _ _ Hr).
Qed.

Lemma dict_loop_unique (fuel : nat) :
  forall i res out eaten,
    keys_unique (JDict res) ->
    dict_loop rec json fuel i res = Done out eaten -> keys_unique out.
Proof.
  induction fuel as [|fuel IH]; intros i res out eaten Hres; simpl.
  - destruct (at_ json i); [discriminate|]. now intros [= <- _].
  - destruct (at_ json i) as [c|]; [|now intros [= <- _]].
    destruct (Ascii.eqb c "}"); [now intros [= <- _]|].
    destruct (rec (substr i json)) as [keyobj n| |]; try discriminate.
    destruct (n =? 0); [now intros [= <- _]|].
    destruct (holds_string keyobj) as [key|]; [|now intros [= <- _]].
    destruct (at_ json (i + n)) as [c1|]; [|discriminate].
    destruct (rec (substr _ json)) as [valobj m| |] eqn:Hv; try discriminate.
    destruct (m =? 0); [now intros [= <- _]|].
    match goal with
    | |- context [at_ json ?j] => destruct (at_ json j) as [c2|]
    end; [|discriminate].
    apply IH. apply try_emplace_unique; [exact Hres|].
    exact (rec_unique _ _ _ Hv).
Qed.

End Unique.

(** Once a key is bound in [res], the loop returns a dictionary that binds
    it to the same value. *)
Lemma dict_loop_keeps (fuel : nat) :
  forall i res out eaten key old,
    dict_loop rec json fuel i res = Done out eaten ->
    dict_find key res = Some old ->
    exists d, out = JDict d /\ dict_find key d = Some old.
Proof.
  induction fuel as [|fuel IH]; intros i res out eaten key old; simpl.
  - destruct (at_ json i); [discriminate|]. intros [= <- _]; eauto.
  - destruct (at_ json i) as [c|]; [|intros [= <- _]; eauto].
    destruct (Ascii.eqb c "}"); [intros [= <- _]; eauto|].
    destruct (rec (substr i json)) as [keyobj n| |]; try discriminate.
    destruct (n =? 0); [intros [= <- _]; eauto|].
    destruct (holds_string keyobj) as [k|]; [|intros [= <- _]; eauto].
    destruct (at_ json (i + n)) as [c1|]; [|discriminate].
    destruct (rec (substr _ json)) as [valobj m| |]; try discriminate.
    destruct (m =? 0); [intros [= <- _]; eauto|].
    match goal with
    | |- context [at_ json ?j] => destruct (at_ json j) as [c2|]
    end; [|discriminate].
    intros Hloop Hold. eapply IH; [exact Hloop|].
    now apply try_emplace_keeps.
Qed.

(** What the loop consumes does not depend on what the dictionary holds:
    a pair is read in full whether or not its key is new. *)
Lemma dict_loop_eaten (fuel : nat) :
  forall i res res' out eaten,
    dict_loop rec json fuel i res = Done out eaten ->
    exists out', dict_loop rec json fuel i res' = Done out' eaten.
Proof.
  induction fuel as [|fuel IH]; intros i res res' out eaten; simpl.
  - destruct (at_ json i); [discriminate|]. intros [= _ <-]; eauto.
  - destruct (at_ json i) as [c|]; [|intros [= _ <-]; eauto].
    destruct (Ascii.eqb c "}"); [intros [= _ <-]; eauto|].
    destruct (rec (substr i json)) as [keyobj n| |]; try discriminate.
    destruct (n =? 0); [intros [= _ <-]; eauto|].
    destruct (holds_string keyobj) as [k|]; [|intros [= _ <-]; eauto].
    destruct (at_ json (i + n)) as [c1|]; [|discriminate].
    destruct (rec (substr _ json)) as [valobj m| |]; try discriminate.
    destruct (m =? 0); [intros [= _ <-]; eauto|].
    match goal with
    | |- context [at_ json ?j] => destruct (at_ json j) as [c2|]
    end; [|discriminate].
    apply IH.
Qed.

End LoopInvariants.

(** Every dictionary in a value that [parse_fuel] returns has distinct
    keys. *)
Lemma parse_fuel_unique (fuel : nat) :
  forall json obj eaten,
    parse_fuel fuel json = Done obj eaten -> keys_unique obj.
Proof.
  induction fuel as [|fuel IH]; intros json obj eaten; [discriminate|].
  destruct json as [|c0 t]; [now intros [= <- _]|].
  cbn [parse_fuel].
  destruct (find_first_not_of (String c0 t) whitespace) as [[|off']|].
  2: { destruct (parse_fuel fuel _) as [o n| |] eqn:E; try discriminate.
       intros [= <- _]. exact (IH _ _ _ E). }
  all: destruct (Ascii.eqb c0 "t" || Ascii.eqb c0 "f");
    [ destruct (Ascii.eqb c0 "t"); [now intros [= <- _]|];
      destruct (Ascii.eqb c0 "f"); now intros [= <- _] |].
  all: destruct (is_digit c0 || Ascii.eqb c0 "+" || Ascii.eqb c0 "-");
    [ destruct (regex_search num_re (String c0 t) 0) as [[p str]|];
      [|now intros [= <- _]];
      destruct (try_parse_num from_chars_int str); [now intros [= <- _]|];
      destruct (try_parse_num from_chars_double str); now intros [= <- _] |].
  all: destruct (Ascii.eqb c0 DQUOTE);
    [ destruct (scan_string _ _ _ _); now intros [= <- _] |].
  all: destruct (Ascii.eqb c0 "[");
    [ apply (list_loop_unique _ _ IH); exact I |].
  all: destruct (Ascii.eqb c0 "{");
    [ apply (dict_loop_unique _ _ IH); split; [constructor|exact I]
    | now intros [= <- _] ].
Qed.

(** C6.  Every dictionary that [parse] produces, at any depth, has
    pairwise distinct keys, and the first occurrence of a key wins: a key
    that is bound when the dictionary loop goes on stays bound to the same
    value in the dictionary returned, a pair with a key already seen is
    dropped by [try_emplace], and the loop consumes the same input
    whatever the dictionary holds.  The thirteen characters of an object
    with the key a bound to 1 and then to 2 give a dictionary with a bound
    to 1 and consumed length 13. *)
Theorem dict_first_occurrence_wins :
  (forall json obj eaten, parse json = Done obj eaten -> keys_unique obj) /\
  (forall rec json fuel i res out eaten key old,
     dict_loop rec json fuel i res = Done out eaten ->
     dict_find key res = Some old ->
     exists d, out = JDict d /\ dict_find key d = Some old) /\
  (forall key val old res,
     dict_find key res = Some old -> try_emplace key val res = res) /\
  (forall rec json fuel i res res' out eaten,
     dict_loop rec json fuel i res = Done out eaten ->
     exists out', dict_loop rec json fuel i res' = Done out' eaten) /\
  (size (quoted "{'a':1,'a':2}") = 13 /\
   parse (quoted "{'a':1,'a':2}") = Done (JDict [("a", JInt 1)]) 13).
Proof.
  split; [intros json obj eaten; apply parse_fuel_unique|].
  split; [intros rec json fuel; apply dict_loop_keeps|].
  split; [intros key val old res; apply try_emplace_seen|].
  split; [intros rec json fuel; apply dict_loop_eaten|].
  split; reflexivity.
Qed.

Lemma dict_first_occurrence_wins_witness :
  parse (quoted "{'a':1,'a':2}") = Done (JDict [("a", JInt 1)]) 13 /\
  keys_unique (JDict [("a", JInt 1)]).
Proof.
  split; [reflexivity|].
  apply (proj1 dict_first_occurrence_wins (quoted "{'a':1,'a':2}") _ 13).
  reflexivity.
Defined.

(* ===================================================================== *)
(** ** Further properties of [parse] *)
(* ===================================================================== *)

(** *** The defining equation

    [parse] satisfies the equation the source writes: the recursive calls
    are calls of [parse] itself. *)
Lemma parse_eq (json : string) :
  parse json =
    match json with
    | EmptyString => Done JNull 0
    | String c0 _ =>
        match find_first_not_of json whitespace with
        | Some (S off') =>
            match parse (substr (S off') json) with
            | Done obj eaten => Done obj (eaten + S off')
            | other => other
            end
        | _ =>
            if Ascii.eqb c0 "t" || Ascii.eqb c0 "f" then
              if Ascii.eqb c0 "t" then Done (JBool true) 4
              else if Ascii.eqb c0 "f" then Done (JBool false) 5
              else Done JNull 0
            else if is_digit c0 || Ascii.eqb c0 "+" || Ascii.eqb c0 "-" then
              match regex_search num_re json 0 with
              | Some (_, str) =>
                  match try_parse_num from_chars_int str with
                  | Some num => Done (JInt num) (size str)
                  | None =>
                      match try_parse_num from_chars_double str with
                      | Some num => Done (JDouble num) (size str)
                      | None => Done JNull 0
                      end
                  end
              | None => Done JNull 0
              end
            else if Ascii.eqb c0 DQUOTE then
              let (str, i) := scan_string (substr 1 json) Raw EmptyString 1 in
              Done (JString str) i
            else if Ascii.eqb c0 "[" then
              list_loop parse json (size json) 1 []
            else if Ascii.eqb c0 "{" then
              dict_loop parse json (size json) 1 []
            else Done JNull 0
        end
    end.
Proof.
  destruct json as [|c0 t]; [reflexivity|].
  unfold parse at 1. cbn [parse_fuel].
  set (json := String c0 t).
  assert (Hrec : forall s, size s < size json ->
                           parse_fuel (size json) s = parse s)
    by (intros s Hs; now apply parse_fuel_parse).
  destruct (find_first_not_of json whitespace) as [[|off']|] eqn:Hoff.
  2: { apply whitespace_offset_lt in Hoff. rewrite Hrec by lia. reflexivity. }
  all: rewrite (list_loop_ext _ parse json Hrec) by lia.
  all: rewrite (dict_loop_ext _ parse json Hrec) by lia.
  all: reflexivity.
Qed.

(** *** Inputs no branch takes *)

(** An input made of whitespace only, the empty input included, is
    answered with null and consumed length 0. *)
Theorem whitespace_only_is_null (json : string) :
  find_first_not_of json whitespace = None -> parse json = Done JNull 0.
Proof.
  intros H. rewrite parse_eq. destruct json as [|c0 t]; [reflexivity|].
  rewrite H. cbn [find_first_not_of] in H.
  destruct (mem c0 whitespace) eqn:Hm; [|discriminate H]. clear H.
  destruct c0 as [[] [] [] [] [] [] [] []]; cbn in Hm;
    first [discriminate Hm | reflexivity].
Qed.

Lemma whitespace_only_is_null_witness :
  find_first_not_of "   " whitespace = None /\ parse "   " = Done JNull 0.
Proof.
  split; [reflexivity|]. apply (whitespace_only_is_null "   "). reflexivity.
Defined.

(** An input whose first character is neither whitespace nor one of the
    characters that select a branch is answered with null and consumed
    length 0; the word null is such an input. *)
Theorem unrecognised_is_null (c0 : ascii) (rest : string) :
  mem c0 whitespace = false -> mem c0 dispatch_chars = false ->
  parse (String c0 rest) = Done JNull 0.
Proof.
  intros Hw Hd. rewrite parse_eq. cbn [find_first_not_of]. rewrite Hw.
  destruct c0 as [[] [] [] [] [] [] [] []]; cbn in Hd;
    first [discriminate Hd | reflexivity].
Qed.

Lemma unrecognised_is_null_witness :
  mem "n" whitespace = false /\ mem "n" dispatch_chars = false /\
  parse "null" = Done JNull 0.
Proof.
  split; [reflexivity|]. split; [reflexivity|].
  apply (unrecognised_is_null "n" "ull"); reflexivity.
Defined.

(** *** String literals *)

Lemma parse_string_branch (body : string) :
  parse (String DQUOTE body) =
    let (str, i) := scan_string body Raw EmptyString 1 in Done (JString str) i.
Proof. reflexivity. Qed.

Lemma size_push_char (str : string) (ch : ascii) :
  size (push_char str ch) = S (size str).
Proof.
  unfold push_char, size. induction str as [|c t IH]; simpl; congruence.
Qed.

Lemma size_append (s t : string) : size (s ++ t) = size s + size t.
Proof.
  unfold size. induction s as [|c s IH]; simpl; congruence.
Qed.

Lemma scan_string_bounds (rest : string) :
  forall ph str i,
    i <= snd (scan_string rest ph str i) <= i + size rest /\
    size (fst (scan_string rest ph str i)) <= size str + size rest.
Proof.
  induction rest as [|ch t IH]; intros ph str i; simpl; [cbn; lia|].
  assert (Hstep : forall ph' str',
             size str' <= S (size str) ->
             i <= snd (scan_string t ph' str' (S i)) <= i + size (String ch t) /\
             size (fst (scan_string t ph' str' (S i)))
               <= size str + size (String ch t)).
  { intros ph' str' Hs. specialize (IH ph' str' (S i)).
    unfold size in *. cbn [String.length] in *. lia. }
  destruct ph.
  - destruct (Ascii.eqb ch BACKSLASH); [apply Hstep; lia|].
    destruct (Ascii.eqb ch DQUOTE);
      [unfold size; cbn [fst snd String.length]; lia|].
    apply Hstep. rewrite size_push_char. lia.
  - apply Hstep. rewrite size_push_char. lia.
Qed.

Lemma scan_string_progress (ch : ascii) (t : string) (ph : phase)
    (str : string) (i : nat) :
  S i <= snd (scan_string (String ch t) ph str i).
Proof.
  simpl. destruct ph.
  - destruct (Ascii.eqb ch BACKSLASH); [apply scan_string_bounds|].
    destruct (Ascii.eqb ch DQUOTE); [cbn; lia|]. apply scan_string_bounds.
  - apply scan_string_bounds.
Qed.

(** An input that opens with a double quote always yields a text and a
    consumed length between 1 and the length of the input (at least 2 when
    anything follows the quote): the string branch has no failure, and the
    text is no longer than what follows the opening quote. *)
Theorem string_branch_never_fails (body : string) :
  exists str eaten,
    parse (String DQUOTE body) = Done (JString str) eaten /\
    1 <= eaten <= size (String DQUOTE body) /\
    (body <> EmptyString -> 2 <= eaten) /\
    size str <= size body.
Proof.
  rewrite parse_string_branch.
  pose proof (scan_string_bounds body Raw EmptyString 1) as (H1 & H2).
  assert (H3 : body <> EmptyString ->
               2 <= snd (scan_string body Raw EmptyString 1)).
  { destruct body as [|ch t]; [easy|]. intros _. apply scan_string_progress. }
  destruct (scan_string body Raw EmptyString 1) as [str i]. cbn [fst snd] in *.
  exists str, i. split; [reflexivity|].
  unfold size in *. cbn [String.length] in *. repeat split; try lia. exact H3.
Qed.

Lemma string_branch_never_fails_witness :
  exists str eaten,
    parse (quoted "'ab") = Done (JString str) eaten /\ 2 <= eaten.
Proof.
  destruct (string_branch_never_fails "ab") as (str & eaten & H & _ & H2 & _).
  exists str, eaten. split; [exact H|]. apply H2. discriminate.
Defined.

(** The loop of the string branch, when a quote follows a closable run: it
    has appended [accumulated ph body] to [str] and stopped just after the
    quote, whatever comes next. *)
Lemma scan_string_closed (body : string) :
  forall rest ph str i,
    closable ph body = true ->
    scan_string (body ++ String DQUOTE rest) ph str i
      = (str ++ accumulated ph body, i + size body + 1).
Proof.
  induction body as [|ch t IH]; intros rest ph str i H; simpl.
  - destruct ph; [|discriminate H]. cbn.
    rewrite append_empty. f_equal. lia.
  - destruct ph; simpl in H.
    + destruct (Ascii.eqb ch BACKSLASH).
      * rewrite IH by exact H. f_equal. cbn. lia.
      * destruct (Ascii.eqb ch DQUOTE); [discriminate|].
        rewrite IH by exact H. rewrite push_char_append. f_equal. cbn. lia.
    + rewrite IH by exact H. rewrite push_char_append. f_equal. cbn. lia.
Qed.

Lemma parse_closed_string (body rest : string) :
  closable Raw body = true ->
  parse (String DQUOTE (body ++ String DQUOTE rest)) =
    Done (JString (accumulated Raw body)) (size body + 2).
Proof.
  intros H. rewrite parse_string_branch, (scan_string_closed body rest Raw _ 1 H).
  cbn [append]. f_equal. lia.
Qed.

(** A literal that is closed: when the characters between the opening
    quote and a later quote contain no quote outside an escape and do not
    end inside one, [parse] returns them with their escapes resolved,
    consumes the literal with both quotes, and does not look at what
    follows. *)
Theorem closed_string_parsed (body rest : string) :
  closable Raw body = true ->
  parse (String DQUOTE (body ++ String DQUOTE rest)) =
    Done (JString (accumulated Raw body)) (size body + 2).
Proof. apply parse_closed_string. Qed.

Lemma closed_string_parsed_witness :
  closable Raw "a\tb" = true /\
  parse (quoted "'a\tb', 1]") = Done (JString (String "a" (String TAB "b"))) 6.
Proof.
  split; [reflexivity|].
  exact (closed_string_parsed "a\tb" ", 1]" eq_refl).
Defined.

Lemma escape_text_closable (s : string) :
  closable Raw (escape_text s) = true /\ accumulated Raw (escape_text s) = s.
Proof.
  induction s as [|c t [IH1 IH2]]; [split; reflexivity|].
  cbn [escape_text].
  destruct (Ascii.eqb_spec c BACKSLASH) as [->|Hb].
  - cbn. now rewrite IH1, IH2.
  - destruct (Ascii.eqb_spec c DQUOTE) as [->|Hq].
    + cbn. now rewrite IH1, IH2.
    + cbn [orb closable accumulated].
      apply Ascii.eqb_neq in Hb, Hq. rewrite Hb, Hq, IH1, IH2. now split.
Qed.

Lemma parse_escape_text (s rest : string) :
  parse (String DQUOTE (escape_text s ++ String DQUOTE rest)) =
    Done (JString s) (size (escape_text s) + 2).
Proof.
  destruct (escape_text_closable s) as [Hc Ha].
  rewrite (parse_closed_string _ rest Hc), Ha. reflexivity.
Qed.

(** Every text can be written as a literal and read back: with a
    backslash put before each quote and each backslash, the literal
    parses to the text itself, consuming exactly the literal. *)
Theorem string_round_trip (s rest : string) :
  parse (String DQUOTE (escape_text s ++ String DQUOTE rest)) =
    Done (JString s) (size (escape_text s) + 2).
Proof. apply parse_escape_text. Qed.

(* ===================================================================== *)
(** ** An induction principle over what [parse] builds *)
(* ===================================================================== *)

Section ValueInvariant.

Variable P : JSONObject -> Prop.

Hypothesis P_null : P JNull.
Hypothesis P_bool : forall b, P (JBool b).
Hypothesis P_string : forall s, P (JString s).
Hypothesis P_int :
  forall str v, try_parse_num from_chars_int str = Some v -> P (JInt v).
Hypothesis P_double :
  forall str d, try_parse_num from_chars_double str = Some d -> P (JDouble d).
Hypothesis P_list_nil : P (JList []).
Hypothesis P_list_push :
  forall l x, P (JList l) -> P x -> P (JList (l ++ [x])%list).
Hypothesis P_dict_nil : P (JDict []).
Hypothesis P_dict_emplace :
  forall d k x, P (JDict d) -> P x -> P (JDict (try_emplace k x d)).

Section InvLoops.

Variable rec : string -> outcome.
Variable json : string.
Hypothesis rec_inv : forall s obj eaten, rec s = Done obj eaten -> P obj.

Lemma list_loop_inv (fuel : nat) :
  forall i res out eaten,
    P (JList res) -> list_loop rec json fuel i res = Done out eaten -> P out.
Proof.
  induction fuel as [|fuel IH]; intros i res out eaten Hres; simpl.
  - destruct (at_ json i); [discriminate|]. now intros [= <- _].
  - destruct (at_ json i) as [c|]; [|now intros [= <- _]].
    destruct (Ascii.eqb c "]"); [now intros [= <- _]|].
    destruct (rec (substr i json)) as [obj n| |] eqn:Hr; try discriminate.
    destruct (n =? 0); [now intros [= <- _]|].
    destruct (at_ json (i + n)) as [c'|]; [|discriminate].
    apply IH. apply P_list_push; [exact Hres|]. exact (rec_inv _ _ _ Hr).
Qed.

Lemma dict_loop_inv (fuel : nat) :
  forall i res out eaten,
    P (JDict res) -> dict_loop rec json fuel i res = Done out eaten -> P out.
Proof.
  induction fuel as [|fuel IH]; intros i res out eaten Hres; simpl.
  - destruct (at_ json i); [discriminate|]. now intros [= <- _].
  - destruct (at_ json i) as [c|]; [|now intros [= <- _]].
    destruct (Ascii.eqb c "}"); [now intros [= <- _]|].
    destruct (rec (substr i json)) as [keyobj n| |]; try discriminate.
    destruct (n =? 0); [now intros [= <- _]|].
    destruct (holds_string keyobj) as [key|]; [|now intros [= <- _]].
    destruct (at_ json (i + n)) as [c1|]; [|discriminate].
    destruct (rec (substr _ json)) as [valobj m| |] eqn:Hv; try discriminate.
    destruct (m =? 0); [now intros [= <- _]|].
    match goal with
    | |- context [at_ json ?j] => destruct (at_ json j) as [c2|]
    end; [|discriminate].
    apply IH. apply P_dict_emplace; [exact Hres|]. exact (rec_inv _ _ _ Hv).
Qed.

End InvLoops.

Lemma parse_fuel_inv (fuel : nat) :
  forall json obj eaten, parse_fuel fuel json = Done obj eaten -> P obj.
Proof.
  induction fuel as [|fuel IH]; intros json obj eaten; [discriminate|].
  destruct json as [|c0 t]; [now intros [= <- _]|].
  cbn [parse_fuel].
  destruct (find_first_not_of (String c0 t) whitespace) as [[|off']|].
  2: { destruct (parse_fuel fuel _) as [o n| |] eqn:E; try discriminate.
       intros [= <- _]. exact (IH _ _ _ E). }
  all: destruct (Ascii.eqb c0 "t" || Ascii.eqb c0 "f");
    [ destruct (Ascii.eqb c0 "t"); [now intros [= <- _]|];
      destruct (Ascii.eqb c0 "f"); now intros [= <- _] |].
  all: destruct (is_digit c0 || Ascii.eqb c0 "+" || Ascii.eqb c0 "-");
    [ destruct (regex_search num_re (String c0 t) 0) as [[p str]|];
      [|now intros [= <- _]];
      destruct (try_parse_num from_chars_int str) eqn:Ei;
      [intros [= <- _]; exact (P_int _ _ Ei)|];
      destruct (try_parse_num from_chars_double str) eqn:Ed;
      [intros [= <- _]; exact (P_double _ _ Ed)|now intros [= <- _]] |].
  all: destruct (Ascii.eqb c0 DQUOTE);
    [ destruct (scan_string _ _ _ _); now intros [= <- _] |].
  all: destruct (Ascii.eqb c0 "[");
    [ apply (list_loop_inv _ _ IH); exact P_list_nil |].
  all: destruct (Ascii.eqb c0 "{");
    [ apply (dict_loop_inv _ _ IH); exact P_dict_nil
    | now intros [= <- _] ].
Qed.

Lemma parse_inv (json : string) (obj : JSONObject) (eaten : nat) :
  parse json = Done obj eaten -> P obj.
Proof. apply parse_fuel_inv. Qed.

End ValueInvariant.

(** *** Numbers inside values *)

Lemma numbers_ok_list (l : JSONList) :
  numbers_ok (JList l) <-> Forall numbers_ok l.
Proof.
  induction l as [|x r IH]; simpl.
  - split; auto.
  - split.
    + intros [Hx Hr]. constructor; [exact Hx|]. now apply IH.
    + intros H. inversion H; subst. split; [assumption|]. now apply IH.
Qed.

Lemma numbers_ok_dict (d : JSONDict) :
  numbers_ok (JDict d) <-> Forall (fun kv => numbers_ok (snd kv)) d.
Proof.
  induction d as [|[k x] r IH]; simpl.
  - split; auto.
  - split.
    + intros [Hx Hr]. constructor; [exact Hx|]. now apply IH.
    + intros H. inversion H; subst. split; [assumption|]. now apply IH.
Qed.

(** [try_parse_num<int>] delivers only values of 32 bits. *)
Lemma try_parse_num_int_range (str : string) (v : Z) :
  try_parse_num from_chars_int str = Some v -> (INT_MIN <= v <= INT_MAX)%Z.
Proof.
  unfold try_parse_num, from_chars_int.
  destruct (match str with String "-" t => (true, t) | _ => (false, str) end)
    as [neg body].
  destruct (span_digits body) as [ds r].
  destruct ds as [|c ds']; [discriminate|].
  set (v' := (if neg then _ else _)%Z).
  destruct ((INT_MIN <=? v') && (v' <=? INT_MAX))%Z eqn:E;
    cbn [ec ptr value]; [|discriminate].
  destruct (_ =? _); [|discriminate]. intros [= <-].
  apply andb_true_iff in E as [E1 E2]. lia.
Qed.

(** [try_parse_num<double>] delivers neither an infinity nor a NaN. *)
Lemma try_parse_num_double_finite (str : string) (d : spec_float) :
  try_parse_num from_chars_double str = Some d ->
  match d with S754_finite _ _ _ | S754_zero _ => True | _ => False end.
Proof.
  unfold try_parse_num, from_chars_double.
  destruct (match str with String "-" t => (true, t) | _ => (false, str) end)
    as [neg body].
  destruct (span_digits body) as [ip r1].
  destruct (match r1 with
            | String "." t => let (fs, r) := span_digits t in (fs, 1, r)
            | _ => (EmptyString, 0, r1)
            end) as [[fp dot] r2].
  destruct (size ip + size fp); [discriminate|].
  destruct (match scan_exponent r2 with
            | Some (x, l) => (x, l) | None => (0%Z, 0) end) as [ex el].
  set (m := digits_val _ fp). set (d' := decimal_to_double _ _ _).
  destruct d' eqn:Ed; cbn [ec ptr value]; try discriminate.
  - destruct (m =? 0)%Z; cbn [ec ptr value]; [|discriminate].
    destruct (_ =? _); [|discriminate]. now intros [= <-].
  - destruct (_ =? _); [|discriminate]. now intros [= <-].
Qed.

(** Every integer in a value that [parse] returns, at any depth, fits the
    32 bits of [int], and every floating-point number is finite: a literal
    that overflows is never wrapped around or turned into an infinity. *)
Theorem parse_numbers_ok (json : string) (obj : JSONObject) (eaten : nat) :
  parse json = Done obj eaten -> numbers_ok obj.
Proof.
  apply parse_inv; try (intros; exact I).
  - intros str v. apply try_parse_num_int_range.
  - intros str d. apply try_parse_num_double_finite.
  - intros l x Hl Hx. apply numbers_ok_list, Forall_app.
    split; [now apply numbers_ok_list|]. now repeat constructor.
  - intros d k x Hd Hx. unfold try_emplace.
    destruct (dict_find k d); [exact Hd|].
    apply numbers_ok_dict, Forall_app.
    split; [now apply numbers_ok_dict|]. now repeat constructor.
Qed.

Lemma parse_numbers_ok_witness :
  numbers_ok (JList [JInt 1; JInt (-7)]).
Proof.
  apply (parse_numbers_ok "[1,-7]" _ 6). reflexivity.
Defined.

(** *** How much is consumed *)



Section LoopBounds.

Variable rec : string -> outcome.
Variable json : string.



End LoopBounds.

Lemma parse_list_branch (rest : string) :
  parse (String "[" rest) =
    list_loop parse (String "[" rest) (size (String "[" rest)) 1 [].
Proof. rewrite parse_eq. reflexivity. Qed.

Lemma parse_dict_branch (rest : string) :
  parse (String "{" rest) =
    dict_loop parse (String "{" rest) (size (String "{" rest)) 1 [].
Proof. rewrite parse_eq. reflexivity. Qed.






(* ===================================================================== *)
(** ** Numbers: what the pattern takes and what [from_chars] makes of it *)
(* ===================================================================== *)

Lemma mem_digits_is_digit (c : ascii) : mem c digits = is_digit c.
Proof. destruct c as [[] [] [] [] [] [] [] []]; reflexivity. Qed.

(** Under a continuation that accepts the rest, the starred class takes
    the whole run of digits. *)
Lemma bt_star_digits_greedy (s : string) :
  forall n k ds r,
    span_digits s = (ds, r) ->
    k r (n + size ds) <> None ->
    bt_star digits s n k = k r (n + size ds).
Proof.
  unfold size.
  induction s as [|c t IH]; intros n k ds r E Hk; cbn [bt_star span_digits] in *.
  - injection E as <- <-. cbn. now rewrite Nat.add_0_r.
  - rewrite mem_digits_is_digit. destruct (is_digit c).
    + destruct (span_digits t) as [ds' r'] eqn:E'. injection E as <- <-.
      cbn [String.length] in *. rewrite <- Nat.add_succ_comm in *.
      rewrite (IH (S n) k ds' r' eq_refl Hk).
      destruct (k r' (S n + String.length ds')); [reflexivity|contradiction].
    + injection E as <- <-. cbn. now rewrite Nat.add_0_r.
Qed.

Lemma bt_opt_seq_cls_miss (set : string) (r : regex) (s : string) (n : nat)
    (k : string -> nat -> option nat) :
  match s with EmptyString => true | String c _ => negb (mem c set) end = true ->
  bt (Opt (Seq (Cls set) r)) s n k = k s n.
Proof.
  intros H. cbn [bt]. destruct s as [|c t]; [reflexivity|].
  apply negb_true_iff in H. now rewrite H.
Qed.

Lemma ends_number_parts (rest : string) :
  ends_number rest = true ->
  match rest with EmptyString => true | String c _ => negb (mem c ".") end = true /\
  match rest with EmptyString => true | String c _ => negb (mem c "eE") end = true /\
  match rest with EmptyString => true | String c _ => negb (is_digit c) end = true.
Proof.
  destruct rest as [|c t]; [now repeat split|]. unfold ends_number.
  destruct c as [[] [] [] [] [] [] [] []]; cbn; intros H;
    first [discriminate H | now repeat split].
Qed.

Lemma span_digits_all (ds rest : string) :
  all_digits ds = true ->
  match rest with EmptyString => true | String c _ => negb (is_digit c) end = true ->
  span_digits (ds ++ rest) = (ds, rest).
Proof.
  intros Hd Hr. induction ds as [|c t IH]; cbn [append span_digits].
  - destruct rest as [|c t]; [reflexivity|].
    apply negb_true_iff in Hr. cbn [span_digits]. now rewrite Hr.
  - cbn [all_digits] in Hd. apply andb_true_iff in Hd as [Hc Ht].
    rewrite Hc, (IH Ht). reflexivity.
Qed.

Lemma substring_append (a b : string) : substring 0 (size a) (a ++ b) = a.
Proof.
  unfold size. induction a as [|c t IH]; cbn.
  - destruct b; reflexivity.
  - now rewrite IH.
Qed.

(** The part of [num_re] after the sign, on digits followed by something
    that ends a number: the match is the digits. *)
Lemma bt_digits_then_end (c : ascii) (ds rest : string) (n : nat) :
  is_digit c = true -> all_digits ds = true -> ends_number rest = true ->
  bt (Seq (Plus digits)
       (Seq (Opt (Seq (Cls ".") (Star digits)))
            (Opt (Seq (Cls "eE") (Seq (Opt (Cls "+-")) (Plus digits))))))
     (String c (ds ++ rest)) n (fun _ m => Some m)
  = Some (n + size (String c ds)).
Proof.
  intros Hc Hd Hr. apply ends_number_parts in Hr as (Hp & He & Hn).
  rewrite bt_seq, bt_plus_hit by (now rewrite mem_digits_is_digit).
  assert (Htail : forall m,
    bt (Seq (Opt (Seq (Cls ".") (Star digits)))
            (Opt (Seq (Cls "eE") (Seq (Opt (Cls "+-")) (Plus digits)))))
       rest m (fun _ m' => Some m') = Some m).
  { intros m. rewrite bt_seq, bt_opt_seq_cls_miss by exact Hp.
    now rewrite bt_opt_seq_cls_miss by exact He. }
  rewrite (bt_star_digits_greedy _ _ _ ds rest (span_digits_all ds rest Hd Hn));
    rewrite Htail; [|discriminate].
  f_equal. unfold size. cbn [String.length]. lia.
Qed.

Lemma digit_not_special (c : ascii) :
  is_digit c = true ->
  mem c whitespace = false /\ mem c "+-" = false /\
  Ascii.eqb c "t" || Ascii.eqb c "f" = false /\
  Ascii.eqb c "-" = false.
Proof.
  destruct c as [[] [] [] [] [] [] [] []]; cbn; intros H;
    first [discriminate H | now repeat split].
Qed.

Lemma from_chars_int_digits (c : ascii) (ds : string) :
  is_digit c = true -> all_digits ds = true ->
  try_parse_num from_chars_int (String c ds) =
    if ((INT_MIN <=? digits_val 0 (String c ds))
        && (digits_val 0 (String c ds) <=? INT_MAX))%Z
    then Some (digits_val 0 (String c ds)) else None.
Proof.
  intros Hc Hd. unfold try_parse_num, from_chars_int.
  assert (Hm : match String c ds with
               | String "-" t => (true, t)
               | _ => (false, String c ds)
               end = (false, String c ds)).
  { revert Hc. destruct c as [[] [] [] [] [] [] [] []]; cbn; intros H;
      first [discriminate H | reflexivity]. }
  rewrite Hm.
  assert (Hs : span_digits (String c ds) = (String c ds, EmptyString)).
  { rewrite <- (append_empty (String c ds)) at 1.
    apply span_digits_all; [|reflexivity].
    cbn [all_digits]. now rewrite Hc, Hd. }
  rewrite Hs.
  destruct ((INT_MIN <=? _) && _)%Z; cbn [ec ptr value]; [|reflexivity].
  now rewrite Nat.eqb_refl.
Qed.

Lemma from_chars_int_minus_digits (c : ascii) (ds : string) :
  is_digit c = true -> all_digits ds = true ->
  try_parse_num from_chars_int (String "-" (String c ds)) =
    if ((INT_MIN <=? - digits_val 0 (String c ds))
        && (- digits_val 0 (String c ds) <=? INT_MAX))%Z
    then Some (- digits_val 0 (String c ds))%Z else None.
Proof.
  intros Hc Hd. unfold try_parse_num, from_chars_int.
  assert (Hs : span_digits (String c ds) = (String c ds, EmptyString)).
  { rewrite <- (append_empty (String c ds)) at 1.
    apply span_digits_all; [|reflexivity].
    cbn [all_digits]. now rewrite Hc, Hd. }
  cbv iota beta. rewrite Hs.
  destruct ((INT_MIN <=? _) && _)%Z; cbn [ec ptr value]; [|reflexivity].
  cbn [size String.length]. now rewrite Nat.eqb_refl.
Qed.

Lemma bt_opt_cls_hit (set : string) (c : ascii) (t : string) (n x : nat)
    (k : string -> nat -> option nat) :
  mem c set = true -> k t (S n) = Some x ->
  bt (Opt (Cls set)) (String c t) n k = Some x.
Proof. intros H E. cbn [bt]. now rewrite H, E. Qed.

Lemma regex_search_digits (c : ascii) (ds rest : string) :
  is_digit c = true -> all_digits ds = true -> ends_number rest = true ->
  regex_search num_re (String c ds ++ rest) 0 = Some (0, String c ds).
Proof.
  intros Hc Hd Hr. cbn [append regex_search].
  assert (Hm : match_at num_re (String c (ds ++ rest))
               = Some (size (String c ds))).
  { unfold match_at, num_re.
    rewrite bt_seq, bt_opt_cls_miss by (now apply digit_not_special).
    now rewrite (bt_digits_then_end c ds rest 0 Hc Hd Hr). }
  rewrite Hm. f_equal. f_equal.
  exact (substring_append (String c ds) rest).
Qed.

Lemma regex_search_minus_digits (c : ascii) (ds rest : string) :
  is_digit c = true -> all_digits ds = true -> ends_number rest = true ->
  regex_search num_re (String "-" (String c ds) ++ rest) 0
    = Some (0, String "-" (String c ds)).
Proof.
  intros Hc Hd Hr. cbn [append regex_search].
  assert (Hm : match_at num_re (String "-" (String c (ds ++ rest)))
               = Some (size (String "-" (String c ds)))).
  { unfold match_at, num_re. rewrite bt_seq.
    apply bt_opt_cls_hit; [reflexivity|].
    exact (bt_digits_then_end c ds rest 1 Hc Hd Hr). }
  rewrite Hm. f_equal. f_equal.
  exact (substring_append (String "-" (String c ds)) rest).
Qed.

(** The number branch of [parse] on a text that starts with a digit or
    with a minus sign. *)
Lemma parse_number_branch (c0 : ascii) (rest : string) :
  is_digit c0 = true \/ c0 = "-"%char ->
  parse (String c0 rest) =
    match regex_search num_re (String c0 rest) 0 with
    | Some (_, str) =>
        match try_parse_num from_chars_int str with
        | Some num => Done (JInt num) (size str)
        | None =>
            match try_parse_num from_chars_double str with
            | Some num => Done (JDouble num) (size str)
            | None => Done JNull 0
            end
        end
    | None => Done JNull 0
    end.
Proof.
  intros [H| ->]; [|now rewrite parse_eq].
  rewrite parse_eq. cbn [find_first_not_of].
  destruct (digit_not_special c0 H) as (Hw & _ & Htf & _).
  now rewrite Hw, Htf, H.
Qed.

Lemma parse_int_literal (neg : bool) (c : ascii) (ds rest : string) :
  is_digit c = true -> all_digits ds = true -> ends_number rest = true ->
  let v := (if neg then - digits_val 0 (String c ds)
            else digits_val 0 (String c ds))%Z in
  let text := if neg then String "-" (String c ds) else String c ds in
  (INT_MIN <= v <= INT_MAX)%Z ->
  parse (text ++ rest) = Done (JInt v) (size text).
Proof.
  intros Hc Hd Hr v text Hv.
  assert (Hb : ((INT_MIN <=? v) && (v <=? INT_MAX))%Z = true)
    by (apply andb_true_iff; lia).
  destruct neg; subst v text.
  - pose proof (regex_search_minus_digits c ds rest Hc Hd Hr) as E.
    cbn [append] in *. rewrite parse_number_branch by now right.
    now rewrite E, (from_chars_int_minus_digits c ds Hc Hd), Hb.
  - pose proof (regex_search_digits c ds rest Hc Hd Hr) as E.
    cbn [append] in *. rewrite parse_number_branch by now left.
    now rewrite E, (from_chars_int_digits c ds Hc Hd), Hb.
Qed.

(** An integer literal is read as the number it writes: digits, with or
    without a minus sign before them, followed by the end of the text or
    by a character that is not a digit, a point or the letter e, parse to
    the integer of that value when it fits 32 bits, and exactly the
    literal is consumed. *)
Theorem int_literal_parsed (neg : bool) (c : ascii) (ds rest : string) :
  is_digit c = true -> all_digits ds = true -> ends_number rest = true ->
  let v := (if neg then - digits_val 0 (String c ds)
            else digits_val 0 (String c ds))%Z in
  let text := if neg then String "-" (String c ds) else String c ds in
  (INT_MIN <= v <= INT_MAX)%Z ->
  parse (text ++ rest) = Done (JInt v) (size text).
Proof. apply parse_int_literal. Qed.

Lemma int_literal_parsed_witness :
  parse "-2147483648, 7]" = Done (JInt (-2147483648)) 11.
Proof.
  apply (int_literal_parsed true "2" "147483648" ", 7]");
    first [reflexivity | (cbv; split; discriminate)].
Defined.

(** The matcher never reports less than it had counted nor more than the
    text allows. *)
Lemma bt_star_range (set : string) (k : string -> nat -> option nat) :
  (forall s n m, k s n = Some m -> n <= m <= n + size s) ->
  forall s n m, bt_star set s n k = Some m -> n <= m <= n + size s.
Proof.
  intros Hk s. induction s as [|c t IH]; intros n m; cbn [bt_star];
    [apply Hk|].
  destruct (mem c set); [|apply Hk].
  destruct (bt_star set t (S n) k) as [x|] eqn:E; [|apply Hk].
  intros [= ->]. apply IH in E. unfold size in *. cbn [String.length]. lia.
Qed.

Lemma bt_range (r : regex) :
  forall k,
    (forall s n m, k s n = Some m -> n <= m <= n + size s) ->
    forall s n m, bt r s n k = Some m -> n <= m <= n + size s.
Proof.
  induction r as [set|set|set|r IH|r1 IH1 r2 IH2]; intros k Hk s n m;
    cbn [bt].
  - destruct s as [|c t]; [discriminate|].
    destruct (mem c set); [|discriminate].
    intros H. apply Hk in H. unfold size in *. cbn [String.length]. lia.
  - now apply bt_star_range.
  - destruct s as [|c t]; [discriminate|].
    destruct (mem c set); [|discriminate].
    intros H. apply (bt_star_range set k Hk) in H.
    unfold size in *. cbn [String.length]. lia.
  - destruct (bt r s n k) as [x|] eqn:E; [|apply Hk].
    intros [= ->]. exact (IH k Hk s n m E).
  - apply IH1. intros s' n' m'. now apply IH2.
Qed.

Lemma match_at_range (r : regex) (s : string) (m : nat) :
  match_at r s = Some m -> m <= size s.
Proof.
  intros H. apply (bt_range r) in H; [lia|].
  intros s' n' m' [= ->]. lia.
Qed.

Lemma size_substring_exact (m : nat) (s : string) :
  m <= size s -> size (substring 0 m s) = m.
Proof.
  unfold size. revert m. induction s as [|c t IH]; intros [|m] H; cbn in *;
    try lia.
  rewrite IH; lia.
Qed.

Lemma substring_idem (m : nat) (s : string) :
  substring 0 (size (substring 0 m s)) s = substring 0 m s.
Proof.
  unfold size. revert m. induction s as [|c t IH]; intros [|m]; cbn;
    try reflexivity.
  now rewrite IH.
Qed.

(** When the text starts with a digit, the number is read from the front:
    the text handed to [from_chars] is the prefix of the input of the
    consumed length, it is not empty, and the result is the integer it
    writes if [from_chars] takes all of it as an [int], else the double,
    else null with consumed length 0. *)
Theorem number_read_from_front (c0 : ascii) (rest : string) :
  is_digit c0 = true ->
  exists str,
    str = substring 0 (size str) (String c0 rest) /\
    1 <= size str <= size (String c0 rest) /\
    parse (String c0 rest) =
      match try_parse_num from_chars_int str with
      | Some num => Done (JInt num) (size str)
      | None =>
          match try_parse_num from_chars_double str with
          | Some num => Done (JDouble num) (size str)
          | None => Done JNull 0
          end
      end.
Proof.
  intros H. rewrite parse_number_branch by now left.
  cbn [regex_search].
  destruct (match_at num_re (String c0 rest)) as [m|] eqn:E;
    [|now apply match_at_digit in E].
  exists (substring 0 m (String c0 rest)).
  split; [now rewrite substring_idem|]. split; [|reflexivity].
  pose proof (match_at_range _ _ _ E) as Hle.
  rewrite (size_substring_exact m _ Hle). split; [|exact Hle].
  destruct (is_digit_mem c0 H) as [Hd Hs].
  revert E. unfold match_at, num_re.
  rewrite bt_seq, (bt_opt_cls_miss _ _ _ _ _ Hs).
  rewrite bt_seq, (bt_plus_hit _ _ _ _ _ Hd). intros E.
  apply bt_star_range in E; [lia|].
  intros s n x. apply bt_range. intros s' n' m' [= ->]. lia.
Qed.

Lemma number_read_from_front_witness :
  exists str, str = substring 0 (size str) "12e" /\ 1 <= size str <= 3.
Proof.
  destruct (number_read_from_front "1" "2e" eq_refl) as (str & H1 & H2 & _).
  exists str. split; [exact H1|exact H2].
Defined.

(** A plus sign before the digits is taken by the pattern and refused by
    [from_chars]: such a number is answered with null and consumed
    length 0. *)
Theorem plus_sign_rejected (d : ascii) (rest : string) :
  is_digit d = true -> parse (String "+" (String d rest)) = Done JNull 0.
Proof.
  intros H. rewrite parse_eq.
  cbn [find_first_not_of mem whitespace whitespace_literal c_str Ascii.eqb
       Bool.eqb orb is_digit]. cbn -[regex_search try_parse_num].
  cbn [regex_search].
  assert (E : exists m, match_at num_re (String "+" (String d rest)) = Some (S m)).
  { unfold match_at, num_re. rewrite bt_seq.
    destruct (is_digit_mem d H) as [Hd _].
    match goal with
    | |- exists m, bt (Opt (Cls ?set)) (String ?c ?t) 0 ?k = _ =>
        destruct (k t 1) as [x|] eqn:E
    end.
    - rewrite (bt_opt_cls_hit "+-" "+" _ 0 x _ eq_refl E).
      rewrite bt_seq, (bt_plus_hit _ _ _ _ _ Hd) in E.
      apply bt_star_range in E.
      + destruct x; [lia|]. eauto.
      + intros s n y. apply bt_range. intros s' n' m' [= ->]. lia.
    - exfalso. revert E. rewrite bt_seq, (bt_plus_hit _ _ _ _ _ Hd).
      apply bt_star_total. intros s n. rewrite bt_seq.
      apply bt_opt_total. intros s' n'. now apply bt_opt_total. }
  destruct E as [m ->]. reflexivity.
Qed.

Lemma plus_sign_rejected_witness : parse "+5" = Done JNull 0.
Proof. apply (plus_sign_rejected "5" ""). reflexivity. Defined.

(* ===================================================================== *)
(** ** How items compose into lists and dictionaries *)
(* ===================================================================== *)

Lemma append_assoc_s (a b c : string) : (a ++ b) ++ c = a ++ (b ++ c).
Proof. induction a as [|x a IH]; cbn; congruence. Qed.

Lemma at_append (pre : string) (c : ascii) (t : string) :
  at_ (pre ++ String c t) (size pre) = Some c.
Proof. unfold at_, size. induction pre as [|x pre IH]; cbn; auto. Qed.

Lemma substr_append (pre s : string) : substr (size pre) (pre ++ s) = s.
Proof. unfold size. induction pre as [|x pre IH]; cbn; auto. Qed.

Lemma reads_size (text : string) (obj : JSONObject) :
  reads text obj -> size text <> 0.
Proof. intros [Hne _]. destruct text; [contradiction|discriminate]. Qed.

(** An item does not start with a closing bracket. *)
Lemma reads_head (text : string) (obj : JSONObject) :
  reads text obj ->
  exists c t, text = String c t /\
              Ascii.eqb c "]" = false /\ Ascii.eqb c "}" = false.
Proof.
  intros [Hne H]. destruct text as [|c t]; [contradiction|].
  exists c, t. split; [reflexivity|].
  specialize (H "]" eq_refl).
  split.
  - destruct (Ascii.eqb_spec c "]") as [->|]; [|reflexivity].
    rewrite parse_eq in H. discriminate H.
  - destruct (Ascii.eqb_spec c "}") as [->|]; [|reflexivity].
    rewrite parse_eq in H. discriminate H.
Qed.

Lemma join_cons (t : string) (ts : list string) :
  join (t :: ts) =
    t ++ match ts with [] => EmptyString | _ => String "," (join ts) end.
Proof. destruct ts; cbn [join]; [now rewrite append_empty|reflexivity]. Qed.

(** One turn of the list loop on an item that is followed by [tail]. *)
Lemma list_loop_item (pre text tail : string) (obj : JSONObject)
    (fuel : nat) (res : JSONList) :
  reads text obj -> closes_item tail = true ->
  list_loop parse (pre ++ text ++ tail) (S fuel) (size pre) res =
    match tail with
    | String "," tail' =>
        list_loop parse (pre ++ text ++ tail) fuel
          (size pre + size text + 1) (res ++ [obj])%list
    | _ =>
        list_loop parse (pre ++ text ++ tail) fuel
          (size pre + size text) (res ++ [obj])%list
    end.
Proof.
  intros Ht Htail.
  pose proof (reads_size _ _ Ht) as Hsz.
  destruct (reads_head _ _ Ht) as (c & t' & -> & Hc & _).
  destruct Ht as [_ Ht].
  cbn [list_loop]. cbn [append]. rewrite at_append, Hc.
  change (String c (t' ++ tail)) with (String c t' ++ tail).
  rewrite substr_append, (Ht tail Htail).
  destruct (Nat.eqb_spec (size (String c t')) 0) as [E|_]; [contradiction|].
  rewrite <- append_assoc_s, <- size_append.
  destruct tail as [|d tail']; [discriminate Htail|].
  rewrite at_append.
  destruct (Ascii.eqb_spec d ",") as [->|Hd]; [reflexivity|].
  destruct d as [[] [] [] [] [] [] [] []]; try reflexivity.
  now contradiction Hd.
Qed.

(** The list loop on items: entered at the start of the items, it pushes
    their values in order and stops after the closing bracket. *)
Lemma list_loop_items (rest : string) (texts : list string)
    (objs : list JSONObject) :
  Forall2 reads texts objs ->
  forall pre fuel res,
    List.length texts < fuel ->
    list_loop parse (pre ++ join texts ++ String "]" rest) fuel (size pre) res
      = Done (JList (res ++ objs)%list)
             (size pre + size (join texts) + 1).
Proof.
  induction 1 as [|t o ts os Ht Hts IH]; intros pre fuel res Hf.
  - destruct fuel as [|fuel]; [cbn in Hf; lia|].
    cbn [join append list_loop]. rewrite at_append. cbn.
    rewrite app_nil_r. f_equal. lia.
  - destruct fuel as [|fuel]; [cbn in Hf; lia|].
    cbn [List.length] in Hf. rewrite join_cons, append_assoc_s.
    destruct ts as [|t2 ts'].
    + inversion Hts; subst. cbn [append].
      rewrite (list_loop_item pre t (String "]" rest) o fuel res Ht eq_refl).
      specialize (IH (pre ++ t) fuel (res ++ [o])%list).
      cbn [join append] in IH.
      rewrite append_assoc_s, size_append in IH. rewrite IH by (cbn; lia).
      rewrite <- app_assoc. cbn [app]. f_equal.
      rewrite append_empty. cbn. lia.
    + cbn [append].
      rewrite (list_loop_item pre t
                 (String "," (join (t2 :: ts') ++ String "]" rest))
                 o fuel res Ht eq_refl).
      specialize (IH (pre ++ t ++ ",") fuel (res ++ [o])%list).
      rewrite !append_assoc_s, !size_append in IH. cbn [append] in IH.
      replace (size pre + (size t + size ",")) with (size pre + size t + 1)
        in IH by (cbn; lia).
      rewrite IH by (cbn in *; lia).
      rewrite <- app_assoc. cbn [app]. f_equal.
      rewrite size_append. cbn. lia.
Qed.

Lemma join_size (texts : list string) (objs : list JSONObject) :
  Forall2 reads texts objs -> List.length texts <= size (join texts).
Proof.
  induction 1 as [|t o ts os Ht Hts IH]; [cbn; lia|].
  apply reads_size in Ht. rewrite join_cons, size_append.
  destruct ts; cbn in *; lia.
Qed.

Lemma parse_list_of_items (texts : list string) (objs : list JSONObject)
    (rest : string) :
  Forall2 reads texts objs ->
  parse (String "[" (join texts ++ String "]" rest)) =
    Done (JList objs) (size (join texts) + 2).
Proof.
  intros H. rewrite parse_list_branch.
  rewrite (list_loop_items rest texts objs H "[" _ []).
  - cbn [app]. f_equal. cbn. lia.
  - apply join_size in H.
    change (size (String "[" (join texts ++ String "]" rest)))
      with (S (size (join texts ++ String "]" rest))).
    rewrite size_append. lia.
Qed.

(** Items compose into a list: an opening bracket, texts that each read as
    an item with commas between them, and a closing bracket parse to the
    list of the items' values in order, and exactly that much is consumed,
    whatever follows the closing bracket. *)
Theorem list_of_items (texts : list string) (objs : list JSONObject)
    (rest : string) :
  Forall2 reads texts objs ->
  parse (String "[" (join texts ++ String "]" rest)) =
    Done (JList objs) (size (join texts) + 2).
Proof. apply parse_list_of_items. Qed.

Lemma reads_true : reads "true" (JBool true).
Proof. split; [discriminate|]. intros tail _. reflexivity. Qed.

Lemma reads_false : reads "false" (JBool false).
Proof. split; [discriminate|]. intros tail _. reflexivity. Qed.

Lemma reads_string (s : string) : reads (key_literal s) (JString s).
Proof.
  split; [discriminate|]. intros tail _. unfold key_literal.
  cbn [append]. rewrite append_assoc_s. cbn [append].
  rewrite parse_escape_text. f_equal.
  change (size (String DQUOTE (escape_text s ++ String DQUOTE EmptyString)))
    with (S (size (escape_text s ++ String DQUOTE EmptyString))).
  rewrite size_append. cbn. lia.
Qed.

Lemma closes_item_ends_number (tail : string) :
  closes_item tail = true -> ends_number tail = true.
Proof.
  destruct tail as [|c t]; [reflexivity|]. cbn [closes_item ends_number].
  destruct c as [[] [] [] [] [] [] [] []]; cbn; intros H;
    first [discriminate H | reflexivity].
Qed.

Lemma reads_digits (c : ascii) (ds : string) :
  is_digit c = true -> all_digits ds = true ->
  (digits_val 0 (String c ds) <= INT_MAX)%Z ->
  reads (String c ds) (JInt (digits_val 0 (String c ds))).
Proof.
  intros Hc Hd Hv. split; [discriminate|]. intros tail Ht.
  apply (parse_int_literal false c ds tail Hc Hd
           (closes_item_ends_number _ Ht)).
  split; [|exact Hv].
  assert (Hpos : forall s a, (0 <= a)%Z -> (0 <= digits_val a s)%Z).
  { induction s as [|x s IH]; intros a Ha; cbn [digits_val]; [exact Ha|].
    apply IH. unfold digit_val. lia. }
  specialize (Hpos (String c ds) 0%Z). unfold INT_MIN. lia.
Qed.

(** A list of items is itself an item, so lists nest. *)
Lemma reads_list (texts : list string) (objs : list JSONObject) :
  Forall2 reads texts objs ->
  reads (String "[" (join texts ++ "]")) (JList objs).
Proof.
  intros H. split; [discriminate|]. intros tail _.
  cbn [append]. rewrite append_assoc_s. cbn [append].
  rewrite (parse_list_of_items texts objs tail H). f_equal.
  change (size (String "[" (join texts ++ "]")))
    with (S (size (join texts ++ "]"))).
  rewrite size_append. cbn. lia.
Qed.

Lemma list_of_items_witness :
  parse (quoted "[12,['a\'b',true],false] tail") =
    Done (JList [JInt 12;
                 JList [JString (quoted "a'b"); JBool true];
                 JBool false]) 24.
Proof.
  apply (list_of_items
           ["12"; String "[" (join [key_literal (quoted "a'b"); "true"] ++ "]");
            "false"]
           [JInt 12; JList [JString (quoted "a'b"); JBool true]; JBool false]
           " tail").
  apply Forall2_cons;
    [exact (reads_digits "1" "2" eq_refl eq_refl ltac:(cbv; discriminate))|].
  apply Forall2_cons; [|apply Forall2_cons; [apply reads_false|apply Forall2_nil]].
  apply reads_list.
  apply Forall2_cons; [apply reads_string|].
  apply Forall2_cons; [apply reads_true|apply Forall2_nil].
Defined.

Lemma key_literal_append (key tail : string) :
  key_literal key ++ tail = String DQUOTE (escape_text key ++ String DQUOTE tail).
Proof.
  unfold key_literal. cbn [append]. now rewrite append_assoc_s.
Qed.

Lemma size_key_literal (key : string) :
  size (key_literal key) = size (escape_text key) + 2.
Proof.
  unfold key_literal.
  change (size (String DQUOTE (escape_text key ++ String DQUOTE EmptyString)))
    with (S (size (escape_text key ++ String DQUOTE EmptyString))).
  rewrite size_append. cbn. lia.
Qed.

(** One turn of the dictionary loop on an entry that is followed by
    [tail]. *)
Lemma dict_loop_entry (pre key text tail : string) (obj : JSONObject)
    (fuel : nat) (res : JSONDict) :
  reads text obj -> closes_item tail = true ->
  dict_loop parse (pre ++ entry_text (key, text, obj) ++ tail) (S fuel)
            (size pre) res =
    dict_loop parse (pre ++ entry_text (key, text, obj) ++ tail) fuel
      (size pre + size (entry_text (key, text, obj))
       + match tail with String "," _ => 1 | _ => 0 end)
      (try_emplace key obj res).
Proof.
  intros Ht Htail.
  pose proof (reads_size _ _ Ht) as Hsz. destruct Ht as [_ Ht].
  cbn [entry_text]. rewrite (append_assoc_s (key_literal key)).
  cbn [append].
  set (json := pre ++ key_literal key ++ String ":" (text ++ tail)).
  cbn [dict_loop].
  (* the key *)
  assert (H1 : at_ json (size pre) = Some DQUOTE)
    by (subst json; rewrite key_literal_append; apply at_append).
  rewrite H1. cbn [Ascii.eqb Bool.eqb DQUOTE].
  assert (H2 : parse (substr (size pre) json)
               = Done (JString key) (size (key_literal key))).
  { subst json. rewrite substr_append, key_literal_append, parse_escape_text.
    now rewrite size_key_literal. }
  rewrite H2.
  destruct (Nat.eqb_spec (size (key_literal key)) 0) as [E|_];
    [rewrite size_key_literal in E; lia|].
  cbn [holds_string].
  (* the colon *)
  assert (J1 : json = (pre ++ key_literal key) ++ String ":" (text ++ tail))
    by (unfold json; now rewrite !append_assoc_s).
  assert (H3 : at_ json (size pre + size (key_literal key)) = Some ":"%char)
    by (rewrite J1, <- size_append; apply at_append).
  rewrite H3. cbn [Ascii.eqb Bool.eqb].
  (* the value *)
  assert (J2 : json = ((pre ++ key_literal key) ++ ":") ++ text ++ tail)
    by (unfold json; now rewrite !append_assoc_s).
  assert (S2 : size ((pre ++ key_literal key) ++ ":")
               = size pre + size (key_literal key) + 1)
    by (rewrite !size_append; reflexivity).
  assert (H4 : parse (substr (size pre + size (key_literal key) + 1) json)
               = Done obj (size text))
    by (rewrite J2, <- S2, substr_append; now apply Ht).
  rewrite H4.
  destruct (Nat.eqb_spec (size text) 0) as [E|_]; [contradiction|].
  (* the separator *)
  assert (J3 : json = (((pre ++ key_literal key) ++ ":") ++ text) ++ tail)
    by (unfold json; now rewrite !append_assoc_s).
  assert (S3 : size (((pre ++ key_literal key) ++ ":") ++ text)
               = size pre + size (key_literal key) + 1 + size text)
    by (rewrite size_append, S2; reflexivity).
  destruct tail as [|d tail']; [discriminate Htail|].
  assert (H5 : at_ json (size pre + size (key_literal key) + 1 + size text)
               = Some d)
    by (rewrite J3, <- S3; apply at_append).
  rewrite H5.
  assert (S4 : size (key_literal key ++ String ":" text)
               = size (key_literal key) + 1 + size text)
    by (rewrite size_append; unfold size; cbn [String.length]; lia).
  rewrite S4.
  destruct (Ascii.eqb_spec d ",") as [->|Hd].
  - f_equal. lia.
  - replace (match d with ","%char => 1 | _ => 0 end) with 0.
    + f_equal. lia.
    + destruct d as [[] [] [] [] [] [] [] []]; try reflexivity.
      now contradiction Hd.
Qed.

Lemma size_entry_text (e : string * string * JSONObject) :
  1 <= size (entry_text e).
Proof.
  destruct e as [[key text] obj]. cbn [entry_text].
  rewrite size_append, size_key_literal. lia.
Qed.

(** The dictionary loop on entries: entered at the start of the entries,
    it hands them to [try_emplace] in order and stops after the closing
    brace. *)
Lemma dict_loop_entries (rest : string)
    (entries : list (string * string * JSONObject)) :
  Forall entry_reads entries ->
  forall pre fuel res,
    List.length entries < fuel ->
    dict_loop parse (pre ++ join (map entry_text entries) ++ String "}" rest)
              fuel (size pre) res
      = Done (JDict (emplace_all res entries))
             (size pre + size (join (map entry_text entries)) + 1).
Proof.
  induction 1 as [|e es He Hes IH]; intros pre fuel res Hf.
  - destruct fuel as [|fuel]; [cbn in Hf; lia|].
    cbn [map join append dict_loop emplace_all fold_left].
    rewrite at_append. cbn. f_equal. lia.
  - destruct fuel as [|fuel]; [cbn in Hf; lia|].
    cbn [List.length] in Hf. cbn [map]. rewrite join_cons, append_assoc_s.
    destruct e as [[key text] obj]. cbn [entry_reads] in He.
    cbn [emplace_all fold_left].
    change (fold_left _ es (try_emplace key obj res))
      with (emplace_all (try_emplace key obj res) es).
    destruct es as [|e2 es'].
    + cbn [map append].
      rewrite (dict_loop_entry pre key text (String "}" rest) obj fuel res
                 He eq_refl).
      specialize (IH (pre ++ entry_text (key, text, obj)) fuel
                     (try_emplace key obj res)).
      cbn [map join append] in IH.
      rewrite append_assoc_s, size_append in IH. cbn [Ascii.eqb].
      rewrite Nat.add_0_r, IH by (cbn; lia).
      f_equal. rewrite append_empty. cbn. lia.
    + remember (map entry_text (e2 :: es')) as texts eqn:Etexts.
      assert (Hm : match texts with
                   | [] => EmptyString
                   | _ => String "," (join texts)
                   end = String "," (join texts))
        by (rewrite Etexts; reflexivity).
      rewrite Hm. cbn [append].
      rewrite (dict_loop_entry pre key text
                 (String "," (join texts ++ String "}" rest))
                 obj fuel res He eq_refl).
      specialize (IH (pre ++ entry_text (key, text, obj) ++ ",") fuel
                     (try_emplace key obj res)).
      rewrite !append_assoc_s, !size_append in IH. cbn [append] in IH.
      replace (size pre + (size (entry_text (key, text, obj)) + size ","))
        with (size pre + size (entry_text (key, text, obj)) + 1)
        in IH by (cbn; lia).
      rewrite IH by (cbn in *; lia).
      f_equal. rewrite size_append.
      change (size (String "," (join texts))) with (S (size (join texts))).
      lia.
Qed.

Lemma join_entries_size (entries : list (string * string * JSONObject)) :
  List.length entries <= size (join (map entry_text entries)).
Proof.
  induction entries as [|e es IH]; [cbn; lia|].
  cbn [map]. rewrite join_cons, size_append.
  pose proof (size_entry_text e).
  destruct es; cbn [List.length map] in *; [lia|].
  change (size (String "," ?x)) with (S (size x)). 
  unfold size in *. cbn [String.length]. lia.
Qed.

Lemma parse_dict_of_entries (entries : list (string * string * JSONObject))
    (rest : string) :
  Forall entry_reads entries ->
  parse (String "{" (join (map entry_text entries) ++ String "}" rest)) =
    Done (JDict (emplace_all [] entries))
         (size (join (map entry_text entries)) + 2).
Proof.
  intros H. rewrite parse_dict_branch.
  rewrite (dict_loop_entries rest entries H "{" _ []).
  - f_equal. cbn. lia.
  - pose proof (join_entries_size entries).
    change (size (String "{" (join (map entry_text entries) ++ String "}" rest)))
      with (S (size (join (map entry_text entries) ++ String "}" rest))).
    rewrite size_append. lia.
Qed.

(** Entries compose into a dictionary: an opening brace, entries written
    as a key literal, a colon and a text that reads as an item, with commas
    between them, and a closing brace parse to the dictionary that
    [try_emplace] builds from the entries in order, so that of two entries
    with one key the first stays; exactly that much is consumed, whatever
    follows the closing brace. *)
Theorem dict_of_entries (entries : list (string * string * JSONObject))
    (rest : string) :
  Forall entry_reads entries ->
  parse (String "{" (join (map entry_text entries) ++ String "}" rest)) =
    Done (JDict (emplace_all [] entries))
         (size (join (map entry_text entries)) + 2).
Proof. apply parse_dict_of_entries. Qed.

(** A dictionary of entries is itself an item. *)
Lemma reads_dict (entries : list (string * string * JSONObject)) :
  Forall entry_reads entries ->
  reads (String "{" (join (map entry_text entries) ++ "}"))
        (JDict (emplace_all [] entries)).
Proof.
  intros H. split; [discriminate|]. intros tail _.
  cbn [append]. rewrite append_assoc_s. cbn [append].
  rewrite (parse_dict_of_entries entries tail H). f_equal.
  change (size (String "{" (join (map entry_text entries) ++ "}")))
    with (S (size (join (map entry_text entries) ++ "}"))).
  rewrite size_append. cbn. lia.
Qed.

Lemma dict_of_entries_witness :
  parse (quoted "{'a':1,'b':[true],'a':false}") =
    Done (JDict [("a", JInt 1); ("b", JList [JBool true])]) 28.
Proof.
  apply (dict_of_entries
           [("a", "1", JInt 1); ("b", "[true]", JList [JBool true]);
            ("a", "false", JBool false)] "").
  apply Forall_cons;
    [exact (reads_digits "1" "" eq_refl eq_refl ltac:(cbv; discriminate))|].
  apply Forall_cons;
    [|apply Forall_cons; [exact reads_false|apply Forall_nil]].
  apply (reads_list ["true"] [JBool true]).
  apply Forall2_cons; [exact reads_true|apply Forall2_nil].
Defined.

(* ===================================================================== *)
(** ** Failure inside containers *)
(* ===================================================================== *)

(** A first element, or a first key, that reports zero makes the
    container report zero. *)
Lemma container_first_failure (h : ascii) (t : string) (obj : JSONObject) :
  Ascii.eqb h "]" = false -> Ascii.eqb h "}" = false ->
  parse (String h t) = Done obj 0 ->
  parse (String "[" (String h t)) = Done (JList []) 0 /\
  parse (String "{" (String h t)) = Done (JDict []) 0.
Proof.
  intros H1 H2 Hp. split.
  - rewrite parse_list_branch.
    change (size (String "[" (String h t))) with (S (size (String h t))).
    now apply (list_loop_element_failure parse _ _ 1 [] h obj).
  - rewrite parse_dict_branch.
    change (size (String "{" (String h t))) with (S (size (String h t))).
    cbn [dict_loop at_ String.get substr]. now rewrite H2, Hp.
Qed.

(** Failure unwinds through containers that are opened one directly inside
    the other: when a text reports zero and is not a closing bracket, the
    same text behind any number of opening brackets and braces reports
    zero as well, with an empty list or dictionary as its value. *)
Theorem nested_failure_unwinds (opens : string) (h : ascii) (t : string)
    (obj : JSONObject) :
  opens <> EmptyString -> all_open opens = true ->
  Ascii.eqb h "]" = false -> Ascii.eqb h "}" = false ->
  parse (String h t) = Done obj 0 ->
  exists v, parse (opens ++ String h t) = Done v 0 /\
            (v = JList [] \/ v = JDict []).
Proof.
  intros Hne Ho H1 H2 Hp.
  induction opens as [|b bs IH]; [contradiction|].
  cbn [all_open] in Ho. apply andb_true_iff in Ho as [Hb Hbs].
  assert (Hin : exists h' t' v',
             bs ++ String h t = String h' t' /\
             Ascii.eqb h' "]" = false /\ Ascii.eqb h' "}" = false /\
             parse (String h' t') = Done v' 0).
  { destruct bs as [|b2 bs'].
    - exists h, t, obj. now repeat split.
    - destruct (IH ltac:(discriminate) Hbs) as (v & Hv & _).
      cbn [all_open] in Hbs. apply andb_true_iff in Hbs as [Hb2 _].
      exists b2, (bs' ++ String h t), v. split; [reflexivity|].
      assert (Hcase : b2 = "["%char \/ b2 = "{"%char).
      { clear - Hb2. destruct b2 as [[] [] [] [] [] [] [] []]; cbn in Hb2;
          first [discriminate Hb2 | now left | now right]. }
      destruct Hcase as [-> | ->]; now repeat split. }
  destruct Hin as (h' & t' & v' & E & E1 & E2 & Ev).
  cbn [append]. rewrite E.
  destruct (container_first_failure h' t' v' E1 E2 Ev) as [Hl Hd].
  assert (Hcase : b = "["%char \/ b = "{"%char).
  { clear - Hb. destruct b as [[] [] [] [] [] [] [] []]; cbn in Hb;
      first [discriminate Hb | now left | now right]. }
  destruct Hcase as [-> | ->].
  - exists (JList []). split; [exact Hl|now left].
  - exists (JDict []). split; [exact Hd|now right].
Qed.

Lemma nested_failure_unwinds_witness :
  exists v, parse (quoted "[{[x,1]}]") = Done v 0.
Proof.
  destruct (nested_failure_unwinds "[{[" "x" ",1]}]" JNull
              ltac:(discriminate) eq_refl eq_refl eq_refl eq_refl)
    as (v & H & _).
  exists v. exact H.
Defined.

(** A key must be a text: when what stands where a key is expected parses
    to a value of any other kind, the dictionary reports zero and stays
    empty. *)
Theorem dict_key_must_be_text (h : ascii) (t : string) (obj : JSONObject)
    (eaten : nat) :
  Ascii.eqb h "}" = false ->
  parse (String h t) = Done obj eaten -> holds_string obj = None ->
  parse (String "{" (String h t)) = Done (JDict []) 0.
Proof.
  intros H2 Hp Hs. rewrite parse_dict_branch.
  change (size (String "{" (String h t))) with (S (size (String h t))).
  cbn [dict_loop at_ String.get substr]. rewrite H2, Hp, Hs.
  now destruct (eaten =? 0).
Qed.

Lemma dict_key_must_be_text_witness :
  parse "{1:2}" = Done (JDict []) 0.
Proof.
  apply (dict_key_must_be_text "1" ":2}" (JInt 1) 1); reflexivity.
Defined.

(* ===================================================================== *)
(** ** Termination and whitespace, as a caller sees them *)
(* ===================================================================== *)


(** Leading whitespace is skipped and counted: when the first character
    outside the six whitespace characters sits at a nonzero offset, the
    value is that of the remainder and the offset is added to the
    remainder's consumed length. *)
Theorem whitespace_skipped (json : string) (off : nat) :
  find_first_not_of json whitespace = Some off -> off <> 0 ->
  parse json =
    match parse (substr off json) with
    | Done obj eaten => Done obj (eaten + off)
    | other => other
    end.
Proof. exact (parse_skip_whitespace json off). Qed.

Lemma whitespace_skipped_witness :
  parse "  [1]" = Done (JList [JInt 1]) 5.
Proof.
  exact (whitespace_skipped "  [1]" 2 eq_refl ltac:(discriminate)).
Defined.

(** An input with leading whitespace before something else never reports
    consumed length 0: whatever the remainder does, the consumed length is
    at least the number of characters skipped, so a failure behind
    whitespace does not show as one. *)
Theorem whitespace_never_zero (json : string) (off : nat)
    (obj : JSONObject) (eaten : nat) :
  find_first_not_of json whitespace = Some off -> off <> 0 ->
  parse json = Done obj eaten -> off <= eaten /\ eaten <> 0.
Proof.
  intros Hoff Hne. rewrite (parse_skip_whitespace json off Hoff Hne).
  destruct (parse (substr off json)) as [o n| |]; try discriminate.
  intros [= _ <-]. lia.
Qed.

Lemma whitespace_never_zero_witness :
  parse " ]" = Done JNull 1 /\ 1 <= 1 /\ 1 <> 0.
Proof.
  split; [reflexivity|].
  exact (whitespace_never_zero " ]" 1 JNull 1 eq_refl ltac:(discriminate)
           eq_refl).
Defined.

(* ===================================================================== *)
(** ** Looking up what was written *)
(* ===================================================================== *)

Lemma dict_find_app_None (key : string) (d e : JSONDict) :
  dict_find key d = None -> dict_find key (d ++ e)%list = dict_find key e.
Proof.
  induction d as [|[k v] r IH]; simpl; [reflexivity|].
  destruct (String.eqb key k); [discriminate|exact IH].
Qed.

(** Looking up [key] after [try_emplace k v]: what was there before, or
    else [v] when [k] is [key]. *)
Lemma dict_find_try_emplace (key k : string) (v : JSONObject) (d : JSONDict) :
  dict_find key (try_emplace k v d) =
    match dict_find key d with
    | Some old => Some old
    | None => if String.eqb key k then Some v else None
    end.
Proof.
  destruct (dict_find key d) as [old|] eqn:E.
  - now apply try_emplace_keeps.
  - unfold try_emplace. destruct (dict_find k d) as [x|] eqn:Ek.
    + rewrite E. destruct (String.eqb_spec key k) as [->|]; congruence.
    + rewrite (dict_find_app_None _ _ _ E). reflexivity.
Qed.

Lemma dict_find_emplace_all (key : string)
    (entries : list (string * string * JSONObject)) :
  forall d,
    dict_find key (emplace_all d entries) =
      match dict_find key d with
      | Some old => Some old
      | None => first_value key entries
      end.
Proof.
  induction entries as [|[[k text] obj] es IH]; intros d;
    cbn [emplace_all fold_left first_value].
  - now destruct (dict_find key d).
  - change (fold_left _ es (try_emplace k obj d))
      with (emplace_all (try_emplace k obj d) es).
    rewrite IH, dict_find_try_emplace.
    destruct (dict_find key d); [reflexivity|].
    now destruct (String.eqb key k).
Qed.

(** In a dictionary written entry by entry, looking up a key gives the
    value of the first entry written with that key, and nothing for a key
    that no entry has. *)
Theorem dict_lookup_first_entry
    (entries : list (string * string * JSONObject)) (rest key : string) :
  Forall entry_reads entries ->
  exists d,
    parse (String "{" (join (map entry_text entries) ++ String "}" rest))
      = Done (JDict d) (size (join (map entry_text entries)) + 2) /\
    dict_find key d = first_value key entries.
Proof.
  intros H. exists (emplace_all [] entries).
  split; [now apply parse_dict_of_entries|].
  now rewrite dict_find_emplace_all.
Qed.

Lemma dict_lookup_first_entry_witness :
  exists d,
    parse (quoted "{'a':1,'b':true,'a':false}") = Done (JDict d) 26 /\
    dict_find "a" d = Some (JInt 1).
Proof.
  apply (dict_lookup_first_entry
           [("a", "1", JInt 1); ("b", "true", JBool true);
            ("a", "false", JBool false)] "" "a").
  apply Forall_cons;
    [exact (reads_digits "1" "" eq_refl eq_refl ltac:(cbv; discriminate))|].
  apply Forall_cons; [exact reads_true|].
  apply Forall_cons; [exact reads_false|apply Forall_nil].
Defined.

(* ===================================================================== *)
(** ** A comma before the closing bracket *)
(* ===================================================================== *)

(** The list loop after as many turns as there are items. *)
Lemma list_loop_turns (tail : string) (texts : list string)
    (objs : list JSONObject) :
  Forall2 reads texts objs -> closes_item tail = true ->
  forall pre fuel res,
    List.length texts <= fuel ->
    list_loop parse (pre ++ join texts ++ tail) fuel (size pre) res
      = list_loop parse (pre ++ join texts ++ tail)
          (fuel - List.length texts)
          (size pre + size (join texts)
           + match texts, tail with
             | _ :: _, String "," _ => 1
             | _, _ => 0
             end)
          (res ++ objs)%list.
Proof.
  intros H Htail.
  induction H as [|t o ts os Ht Hts IH]; intros pre fuel res Hf.
  - cbn [join List.length size String.length].
    now rewrite Nat.sub_0_r, !Nat.add_0_r, app_nil_r.
  - destruct fuel as [|fuel]; [cbn in Hf; lia|].
    cbn [List.length] in Hf. rewrite join_cons, append_assoc_s.
    destruct ts as [|t2 ts'].
    + inversion Hts; subst. cbn [append List.length Nat.sub].
      rewrite (list_loop_item pre t tail o fuel res Ht Htail).
      rewrite append_empty, Nat.sub_0_r.
      destruct tail as [|d tail']; [discriminate Htail|].
      destruct (Ascii.eqb_spec d ",") as [->|Hd]; [reflexivity|].
      replace (match d with ","%char => 1 | _ => 0 end) with 0.
      * rewrite Nat.add_0_r.
        destruct d as [[] [] [] [] [] [] [] []]; try reflexivity.
        now contradiction Hd.
      * destruct d as [[] [] [] [] [] [] [] []]; try reflexivity.
        now contradiction Hd.
    + remember (t2 :: ts') as rest_texts eqn:Er.
      cbn [append].
      rewrite (list_loop_item pre t (String "," (join rest_texts ++ tail))
                 o fuel res Ht eq_refl).
      specialize (IH (pre ++ t ++ ",") fuel (res ++ [o])%list).
      rewrite !append_assoc_s, !size_append in IH. cbn [append] in IH.
      replace (size pre + (size t + size ",")) with (size pre + size t + 1)
        in IH by (cbn; lia).
      rewrite IH by (cbn in *; lia).
      rewrite <- app_assoc. cbn [app List.length Nat.sub].
      f_equal. rewrite size_append.
      change (size (String "," (join rest_texts)))
        with (S (size (join rest_texts))).
      rewrite Er. destruct tail as [|d tail']; [discriminate Htail|]. lia.
Qed.

(** A comma between the last item and the closing bracket is accepted:
    the list parses to the same values as without it, and the comma is
    consumed with the rest. *)
Theorem trailing_comma_accepted (texts : list string)
    (objs : list JSONObject) (rest : string) :
  texts <> [] -> Forall2 reads texts objs ->
  parse (String "[" (join texts ++ String "," (String "]" rest))) =
    Done (JList objs) (size (join texts) + 3).
Proof.
  intros Hne H. rewrite parse_list_branch.
  pose proof (join_size texts objs H) as Hlen.
  set (json := String "[" (join texts ++ String "," (String "]" rest))).
  assert (Hsz : size (join texts) + 3 <= size json).
  { unfold json.
    change (size (String "[" (join texts ++ String "," (String "]" rest))))
      with (S (size (join texts ++ String "," (String "]" rest)))).
    rewrite size_append. unfold size. cbn [String.length]. lia. }
  pose proof (list_loop_turns (String "," (String "]" rest)) texts objs H
                eq_refl "[" (size json) []) as Hturns.
  cbn [append] in Hturns. fold json in Hturns.
  change (list_loop parse json (size json) 1 [])
    with (list_loop parse json (size json) (size "[") []).
  rewrite Hturns by lia. clear Hturns.
  destruct texts as [|t ts]; [contradiction|].
  remember (t :: ts) as all eqn:Eall.
  replace (match all with
           | [] => 0
           | _ :: _ => 1
           end) with 1 by (rewrite Eall; reflexivity).
  destruct (size json - List.length all) as [|fuel] eqn:Ef; [lia|].
  assert (Hat : at_ json (size "[" + size (join all) + 1) = Some "]"%char).
  { unfold json.
    replace (String "[" (join all ++ String "," (String "]" rest)))
      with (("[" ++ join all ++ ",") ++ String "]" rest)
      by (cbn [append]; now rewrite append_assoc_s).
    replace (size "[" + size (join all) + 1)
      with (size ("[" ++ join all ++ ","))
      by (rewrite !size_append; cbn; lia).
    apply at_append. }
  cbn [list_loop]. rewrite Hat. cbn [Ascii.eqb Bool.eqb app].
  f_equal. cbn. lia.
Qed.

Lemma trailing_comma_accepted_witness :
  parse "[1,true,]" = Done (JList [JInt 1; JBool true]) 9.
Proof.
  apply (trailing_comma_accepted ["1"; "true"] [JInt 1; JBool true] "");
    [discriminate|].
  apply Forall2_cons;
    [exact (reads_digits "1" "" eq_refl eq_refl ltac:(cbv; discriminate))|].
  apply Forall2_cons; [exact reads_true|apply Forall2_nil].
Defined.
